(** * Cheat-Cheat product catalogue: the query pipeline, the API client and
      the request lifecycle hooks, embedded in Rocq.

    Part I embeds the program, one module per source file:
    - [src/services/api.js]            (module [Api])
    - [src/screens/HomeScreen.js]      (module [HomeScreen]; the pipeline
                                        [getProcessedProducts])
    - [src/hooks/useProducts.js]       (module [UseProducts])
    - [src/hooks/useProductDetail.js]  (module [UseProductDetail])
    - [src/screens/ProductDetailScreen.js]
                                       (module [ProductDetailScreen]; the
                                        branch the screen takes)
    Each module ends with the vocabulary in which its properties are
    stated.  Part II holds the lemmas and theorems.

    Conventions of the embedding.
    - A JavaScript string is a [string]: a sequence of code units in the
      range U+0000..U+00FF.  [toLowerCase], [trim] and [includes] are the
      ECMAScript operations on that range, where [toLowerCase] maps each
      code unit on its own and [encodeURIComponent] never throws (there
      are no surrogates).  What is stated of strings is stated of these.
    - A number passed as a value is an integer; [JsValue.to_string]
      writes all its digits, as JavaScript does for the safe integers
      ([JsValue.safe_number]).
    - The [product] of [useProductDetail] is [None] for the initial
      [null] and [Some data] once a fetch has resolved with [data];
      [Some JNull] is a fetch that resolved with the JSON value [null],
      which JavaScript does not tell from the initial [null].
    - A JavaScript exception is a value of [JsError]; code that can throw
      returns [result].
    - Arrays are objects with identity: they live in a store and are
      passed around by reference ([loc]).
    - An [async function] returns a promise ([Api.async]): settled, or
      suspended on a network request with what follows the answer.
    - [String.prototype.localeCompare] is provided by the host's collation
      service; it is the parameter [localeCompare] of class [Collation].
    - [console.log] and [console.error] are left out. *)

From Stdlib Require Import ZArith QArith Lqa Lia Bool Ascii String List.
From Stdlib Require Import Sorted Permutation DecimalString.
From stdpp Require Import list.
Import ListNotations.

Local Open Scope string_scope.
Local Open Scope list_scope.
Local Open Scope nat_scope.

(** String concatenation, written apart from list concatenation. *)
Infix "+:+" := String.append (at level 60, right associativity).

(* ##################################################################### *)
(** * Part I: the program *)
(* ##################################################################### *)

(* ===================================================================== *)
(** ** Exceptions and fallible computations *)
(* ===================================================================== *)

Inductive ErrorName := NError | NTypeError | NSyntaxError | NAbortError.

Record JsError := MkError { err_name : ErrorName; err_message : string }.

Inductive result (A : Type) : Type :=
| Ok (a : A)
| Throw (e : JsError).
Arguments Ok {A} a.
Arguments Throw {A} e.

Definition rbind {A B} (r : result A) (k : A -> result B) : result B :=
  match r with
  | Ok a => k a
  | Throw e => Throw e
  end.

(** Reading a property of [undefined] or [null], or calling a method that
    the receiver does not have. *)
Definition type_error (what : string) : JsError := MkError NTypeError what.

(* ===================================================================== *)
(** ** JavaScript strings *)
(* ===================================================================== *)

Module JsString.

(** Code units with an upper/lower case pair in U+0000..U+00FF:
    A-Z, and U+00C0..U+00DE without the multiplication sign U+00D7. *)
Definition is_upper (c : ascii) : bool :=
  let n := nat_of_ascii c in
  (((65 <=? n) && (n <=? 90)) ||
   ((192 <=? n) && (n <=? 222) && negb (n =? 215)))%nat.

Definition lower_char (c : ascii) : ascii :=
  if is_upper c then ascii_of_nat (nat_of_ascii c + 32) else c.

(** [s.toLowerCase()] *)
Fixpoint toLowerCase (s : string) : string :=
  match s with
  | EmptyString => EmptyString
  | String c s' => String (lower_char c) (toLowerCase s')
  end.

(** WhiteSpace and LineTerminator code units below U+0100:
    TAB, LF, VT, FF, CR, SP and NBSP. *)
Definition is_white_space (c : ascii) : bool :=
  let n := nat_of_ascii c in
  (((9 <=? n) && (n <=? 13)) || (n =? 32) || (n =? 160))%nat.

Fixpoint trimStart (s : string) : string :=
  match s with
  | EmptyString => EmptyString
  | String c s' => if is_white_space c then trimStart s' else s
  end.

Fixpoint trimEnd (s : string) : string :=
  match s with
  | EmptyString => EmptyString
  | String c s' =>
      match trimEnd s' with
      | EmptyString => if is_white_space c then EmptyString
                       else String c EmptyString
      | r => String c r
      end
  end.

(** [s.trim()] *)
Definition trim (s : string) : string := trimEnd (trimStart s).

(** [s.startsWith(t)] *)
Fixpoint starts_with (s t : string) {struct t} : bool :=
  match t, s with
  | EmptyString, _ => true
  | String _ _, EmptyString => false
  | String b t', String a s' => Ascii.eqb a b && starts_with s' t'
  end.

(** [s.includes(t)]: [t] occurs in [s] at some position. *)
Fixpoint includes (s t : string) : bool :=
  starts_with s t ||
  match s with
  | EmptyString => false
  | String _ s' => includes s' t
  end.

(** JavaScript truthiness of a string: only the empty string is falsy. *)
Definition truthy_string (s : string) : bool :=
  match s with
  | EmptyString => false
  | String _ _ => true
  end.

(** *** [encodeURIComponent] *)

Definition is_unreserved (c : ascii) : bool :=
  let n := nat_of_ascii c in
  (((65 <=? n) && (n <=? 90)) || ((97 <=? n) && (n <=? 122)) ||
   ((48 <=? n) && (n <=? 57)) ||
   existsb (Nat.eqb n) [45; 95; 46; 33; 126; 42; 39; 40; 41])%nat.

Definition hex_digit (n : nat) : ascii :=
  ascii_of_nat (if (n <? 10)%nat then 48 + n else 55 + n).

Definition percent (n : nat) : string :=
  String "%" (String (hex_digit (n / 16)) (String (hex_digit (n mod 16)) "")).

(** The code unit's UTF-8 bytes, each written [%XX]. *)
Definition escape (c : ascii) : string :=
  let n := nat_of_ascii c in
  if (n <? 128)%nat then percent n
  else if (n <? 192)%nat then percent 194 +:+ percent n
  else percent 195 +:+ percent (n - 64).

Fixpoint encodeURIComponent (s : string) : string :=
  match s with
  | EmptyString => EmptyString
  | String c s' =>
      (if is_unreserved c then String c "" else escape c)
      +:+ encodeURIComponent s'
  end.

(** *** Vocabulary *)

(** Declarative reading of [includes]: [t] is an infix of [s]. *)
Definition infix_of (t s : string) : Prop :=
  exists a b, s = a +:+ t +:+ b.

(** Only white space: the strings that [trim] reduces to the empty
    string. *)
Fixpoint blank (s : string) : bool :=
  match s with
  | EmptyString => true
  | String c s' => is_white_space c && blank s'
  end.

(** The characters an encoded URI component is made of: the unreserved
    ones, and the percent sign that starts an escape. *)
Definition is_uri_char (c : ascii) : bool :=
  is_unreserved c || Ascii.eqb c "%".

Definition uri_component (s : string) : bool :=
  forallb is_uri_char (list_ascii_of_string s).

End JsString.

(* ===================================================================== *)
(** ** The host's collation *)
(* ===================================================================== *)

(** [a.localeCompare(b)]: negative, zero or positive. *)
Class Collation := localeCompare : string -> string -> Z.

(** A collation is a consistent comparator: swapping the arguments flips
    the sign, and the order it induces is transitive. *)
Class Consistent (collation : Collation) : Prop := {
  localeCompare_antisym :
    forall a b, Z.sgn (localeCompare b a) = (- Z.sgn (localeCompare a b))%Z;
  localeCompare_trans :
    forall a b c,
      (localeCompare a b <= 0)%Z -> (localeCompare b c <= 0)%Z ->
      (localeCompare a c <= 0)%Z
}.

(** Comparison by code units: the collation used in the examples. *)
Fixpoint compare_code_units (a b : string) : Z :=
  match a, b with
  | EmptyString, EmptyString => 0
  | EmptyString, String _ _ => -1
  | String _ _, EmptyString => 1
  | String x a', String y b' =>
      match N.compare (N_of_ascii x) (N_of_ascii y) with
      | Lt => -1
      | Gt => 1
      | Eq => compare_code_units a' b'
      end
  end%Z.

Definition code_units : Collation := compare_code_units.

(* ===================================================================== *)
(** ** Numbers returned by comparators *)
(* ===================================================================== *)

(** A JavaScript number as a sort comparator returns it: a finite value or
    [NaN].  Finite doubles are rationals, and the sign of the difference of
    two finite doubles is the sign of their exact difference, so finite
    values are represented by [Q]. *)
Inductive jsnum := NaN | Num (q : Q).

(** [Array.prototype.sort] only asks whether the comparator's value is
    positive or negative; [NaN] is read as [+0]. *)
Definition is_positive (v : jsnum) : bool :=
  match v with
  | NaN => false
  | Num q => match (0 ?= q)%Q with Lt => true | _ => false end
  end.

(* ===================================================================== *)
(** ** [Array.prototype.sort] and [Array.prototype.filter] *)
(* ===================================================================== *)

(** ECMAScript requires [sort] to be stable and, for a consistent
    comparator, to return the elements in comparator order.  That fixes
    the result: it is the sorted, stable permutation, which the insertion
    sort below computes.  The sequence of comparator calls is left to the
    implementation; the model calls [cmp x y] with [x] the element that
    came first in the input. *)
Section Sorting.
Context {A : Type}.

(** With a comparator that can throw, as a callback can. *)
Variable cmp : A -> A -> result jsnum.

Fixpoint insert_by (x : A) (l : list A) : result (list A) :=
  match l with
  | [] => Ok [x]
  | y :: l' =>
      rbind (cmp x y) (fun v =>
        if is_positive v
        then rbind (insert_by x l') (fun r => Ok (y :: r))
        else Ok (x :: y :: l'))
  end.

Fixpoint sort_by (l : list A) : result (list A) :=
  match l with
  | [] => Ok []
  | x :: l' => rbind (sort_by l') (insert_by x)
  end.

(** The same sort for an order given as a total function:
    [before a b = true] when [a] may stay in front of [b], that is, when
    the comparator's value on [(a, b)] is not positive. *)
Variable before : A -> A -> bool.

Fixpoint insert (x : A) (l : list A) : list A :=
  match l with
  | [] => [x]
  | y :: l' => if before x y then x :: y :: l' else y :: insert x l'
  end.

Fixpoint isort (l : list A) : list A :=
  match l with
  | [] => []
  | x :: l' => insert x (isort l')
  end.

(** Neither of two elements has to come first. *)
Definition tied (x y : A) : bool := before x y && before y x.

End Sorting.

(** [filter] with a callback that can throw: the elements are tested in
    index order and the first exception ends the call. *)
Section Filtering.
Context {A : Type}.
Variable p : A -> result bool.

Fixpoint filter_by (l : list A) : result (list A) :=
  match l with
  | [] => Ok []
  | x :: l' =>
      rbind (p x) (fun keep =>
        rbind (filter_by l') (fun r => Ok (if keep then x :: r else r)))
  end.

End Filtering.

(* ===================================================================== *)
(** ** Arrays in the store *)
(* ===================================================================== *)

(** An array is an object: two variables can hold the same array, and
    [sort] changes it in place.  The store maps a reference to the current
    contents of the array; a new array takes the next free reference. *)
Definition loc := nat.

(** A computation over the store of arrays with elements of type [A],
    which returns a [B] or throws. *)
Definition M (A B : Type) : Type :=
  list (list A) -> result (B * list (list A)).

Section Store.
Context {A : Type}.
Implicit Types (h : list (list A)) (l : loc).

Definition ret {B} (b : B) : M A B := fun h => Ok (b, h).

Definition bind {B C} (m : M A B) (k : B -> M A C) : M A C :=
  fun h =>
    match m h with
    | Ok (b, h') => k b h'
    | Throw e => Throw e
    end.

Definition throw {B} (e : JsError) : M A B := fun _ => Throw e.

(** The contents of the array at [l].  Every reference the program holds
    is one the store has handed out; outside of it the model reads an
    empty array. *)
Definition contents l h : list A := default [] (h !! l).

(** An array literal, or any operation that returns a new array. *)
Definition new_array (xs : list A) : M A loc :=
  fun h => Ok (length h, h ++ [xs]).

(** [arr.filter(callback)]: a new array, the receiver is left alone. *)
Definition array_filter (p : A -> result bool) l : M A loc :=
  fun h =>
    match filter_by p (contents l h) with
    | Ok out => new_array out h
    | Throw e => Throw e
    end.

(** [[...arr]]: a new array with the same elements. *)
Definition array_spread l : M A loc :=
  fun h => new_array (contents l h) h.

(** [arr.sort(comparator)]: sorts [arr] in place and returns [arr]. *)
Definition array_sort (cmp : A -> A -> result jsnum) l : M A loc :=
  fun h =>
    match sort_by cmp (contents l h) with
    | Ok out => Ok (l, <[l := out]> h)
    | Throw e => Throw e
    end.

(** *** Vocabulary *)

(** The store after a computation keeps every array that was there
    before, with the contents it had. *)
Definition extends h h' : Prop := exists ext, h' = h ++ ext.

End Store.

(* ===================================================================== *)
(** ** Products *)
(* ===================================================================== *)

Module Catalog.

(** The fields of a product object that the pipeline reads.  The objects
    come from an untyped JSON API: [None] is a property that is absent
    (reading it gives [undefined]). *)
Record Product := {
  id : Z;
  title : option string;
  description : option string;
  category : option string;
  price : option Q
}.

(** [recv.method(...)] with [recv] a string property that may be absent. *)
Definition receiver (method : string) (recv : option string) : result string :=
  match recv with
  | Some s => Ok s
  | None => Throw (type_error
      ("Cannot read properties of undefined (reading '" +:+ method +:+ "')"))
  end.

(** [ToString] of a string property that may be absent. *)
Definition to_string_prop (v : option string) : string :=
  match v with
  | Some s => s
  | None => "undefined"
  end.

(** [a - b] on two price properties: [undefined] converts to [NaN]. *)
Definition js_sub (a b : option Q) : jsnum :=
  match a, b with
  | Some x, Some y => Num (x - y)
  | _, _ => NaN
  end.

(** [v || ''] and [v || 0]. *)
Definition or_empty (v : option string) : string :=
  match v with
  | Some s => s
  | None => ""
  end.

Definition or_zero (v : option Q) : Q :=
  match v with
  | Some q => q
  | None => 0%Q
  end.

(** [x === s] for a property [x] and a string [s]. *)
Definition strict_eq_string (x : option string) (s : string) : bool :=
  match x with
  | Some c => String.eqb c s
  | None => false
  end.

(** *** Vocabulary *)

(** A product as the data model describes it: it has a title and a price. *)
Definition well_formed (p : Product) : bool :=
  match title p, price p with
  | Some _, Some _ => true
  | _, _ => false
  end.

(** [p] has a title whose lower-cased form contains [needle]. *)
Definition title_contains (needle : string) (p : Product) : Prop :=
  exists t, title p = Some t /\
            JsString.includes (JsString.toLowerCase t) needle = true.

(** The sort keys of the query descriptor. *)
Inductive SortKey := NameAsc | PriceAsc | PriceDesc.

(** The order a sort key asks for. *)
Definition in_order `{Collation} (k : SortKey) (a b : Product) : Prop :=
  match k with
  | NameAsc => (localeCompare (or_empty (title a)) (or_empty (title b)) <= 0)%Z
  | PriceAsc => (or_zero (price a) <= or_zero (price b))%Q
  | PriceDesc => (or_zero (price b) <= or_zero (price a))%Q
  end.

(** Two products have equal sort keys. *)
Definition same_key `{Collation} (k : SortKey) (a b : Product) : bool :=
  match k with
  | NameAsc => (localeCompare (or_empty (title a)) (or_empty (title b)) =? 0)%Z
  | PriceAsc | PriceDesc => Qeq_bool (or_zero (price a)) (or_zero (price b))
  end.

(** The same orders as total functions. *)
Definition title_le `{Collation} (a b : Product) : bool :=
  (localeCompare (or_empty (title a)) (or_empty (title b)) <=? 0)%Z.

Definition price_le (a b : Product) : bool :=
  Qle_bool (or_zero (price a)) (or_zero (price b)).

(** *** The specification's scenario *)

Definition iphone : Product :=
  {| id := 1; title := Some "iPhone 9"; description := None;
     category := Some "smartphones"; price := Some (549 # 1) |}.

Definition samsung : Product :=
  {| id := 2; title := Some "Samsung Universe 9"; description := None;
     category := Some "smartphones"; price := Some (1249 # 1) |}.

Definition lipstick : Product :=
  {| id := 3; title := Some "Red Lipstick"; description := None;
     category := Some "beauty"; price := Some (12 # 1) |}.

Definition scenario : list Product := [iphone; samsung; lipstick].

(** A product that came without a title, and one without a price. *)
Definition untitled : Product :=
  {| id := 4; title := None; description := Some "no title here";
     category := Some "beauty"; price := Some (5 # 1) |}.

Definition unpriced : Product :=
  {| id := 5; title := Some "Free Sample"; description := None;
     category := Some "beauty"; price := None |}.

End Catalog.

(* ===================================================================== *)
(** ** Values passed to the handlers and to the API functions *)
(* ===================================================================== *)

Module JsValue.
Import JsString.

(** The values a caller can pass: primitives (numbers are integers, as
    product ids and HTTP statuses are) and an [AbortSignal] object with
    its [aborted] flag. *)
Inductive jsval :=
| VUndefined
| VNull
| VBool (b : bool)
| VNum (z : Z)
| VStr (s : string)
| VSignal (aborted : bool).

(** [ToBoolean]. *)
Definition truthy (v : jsval) : bool :=
  match v with
  | VUndefined | VNull => false
  | VBool b => b
  | VNum z => negb (z =? 0)%Z
  | VStr s => truthy_string s
  | VSignal _ => true
  end.

(** [ToString], as a template literal applies it. *)
Definition to_string (v : jsval) : string :=
  match v with
  | VUndefined => "undefined"
  | VNull => "null"
  | VBool true => "true"
  | VBool false => "false"
  | VNum z => NilZero.string_of_int (Z.to_int z)
  | VStr s => s
  | VSignal _ => "[object AbortSignal]"
  end.

(** [v === s] for a string literal [s]. *)
Definition is_string (v : jsval) (s : string) : bool :=
  match v with
  | VStr s' => String.eqb s' s
  | _ => false
  end.

(** [v.method()] for a string method: every other receiver in [jsval]
    either has no such method or no properties at all. *)
Definition string_method (name : string) (f : string -> string) (v : jsval)
  : result string :=
  match v with
  | VStr s => Ok (f s)
  | VUndefined | VNull =>
      Throw (type_error ("Cannot read properties of " +:+ to_string v +:+
                         " (reading '" +:+ name +:+ "')"))
  | _ => Throw (type_error (name +:+ " is not a function"))
  end.

(** [Object.is] on the values used as product ids. *)
Definition same_value (a b : jsval) : bool :=
  match a, b with
  | VUndefined, VUndefined | VNull, VNull => true
  | VBool x, VBool y => Bool.eqb x y
  | VNum x, VNum y => (x =? y)%Z
  | VStr x, VStr y => String.eqb x y
  | VSignal x, VSignal y => Bool.eqb x y
  | _, _ => false
  end.

(** *** Vocabulary *)

(** A value that [to_string] writes as JavaScript does: every value of
    [jsval] that is not a number, and the safe integers, from -(2^53 - 1)
    to 2^53 - 1, which JavaScript writes with all their digits. *)
Definition safe_number (v : jsval) : bool :=
  match v with
  | VNum z => (Z.abs z <=? 2 ^ 53 - 1)%Z
  | _ => true
  end.

End JsValue.

(* ===================================================================== *)
(** ** src/screens/HomeScreen.js: the displayed list *)
(* ===================================================================== *)

Module HomeScreen.
Import JsString Catalog.

(** The state the pipeline closes over: [useState('')],
    [useState('name-asc')], [useState('all')], and the [products] array
    handed out by the [useProducts] hook ([None]: null or undefined). *)
Record State := {
  searchQuery : string;
  sortBy : string;
  filterCategory : string;
  products : option loc
}.

(** Every render calls [getProcessedProducts] and hands the array it
    returns to the list component ([data={displayedProducts}]). *)
Record Screen := {
  state : State;
  store : list (list Product);
  displayedProducts : loc
}.

(** What the user can do: type in the search box, clear it, press a sort
    button, press a category button. *)
Inductive Interaction :=
| ChangeText (text : string)
| ClearSearch
| PressSort (k : SortKey)
| PressCategory (c : string).

(** The string that the sort buttons store for each key. *)
Definition sort_literal (k : SortKey) : string :=
  match k with
  | NameAsc => "name-asc"
  | PriceAsc => "price-asc"
  | PriceDesc => "price-desc"
  end.

Definition setSearchQuery (text : string) (st : State) : State :=
  {| searchQuery := text; sortBy := sortBy st;
     filterCategory := filterCategory st; products := products st |}.

Definition setSortBy (k : string) (st : State) : State :=
  {| searchQuery := searchQuery st; sortBy := k;
     filterCategory := filterCategory st; products := products st |}.

Definition setFilterCategory (c : string) (st : State) : State :=
  {| searchQuery := searchQuery st; sortBy := sortBy st;
     filterCategory := c; products := products st |}.

(** The state on the first render. *)
Definition initial (fetched : option loc) : State :=
  {| searchQuery := ""; sortBy := "name-asc"; filterCategory := "all";
     products := fetched |}.

Definition handle (i : Interaction) (st : State) : State :=
  match i with
  | ChangeText text => setSearchQuery text st
  | ClearSearch => setSearchQuery "" st
  | PressSort k => setSortBy (sort_literal k) st
  | PressCategory c => setFilterCategory c st
  end.

(** The callbacks. *)

Definition search_callback (st : State) (product : Product) : result bool :=
  rbind (receiver "toLowerCase" (title product)) (fun t =>
    let titleLower := toLowerCase t in
    let queryLower := toLowerCase (searchQuery st) in
    Ok (includes titleLower queryLower)).

Definition category_callback (st : State) (product : Product) : result bool :=
  Ok (strict_eq_string (category product) (filterCategory st)).

Definition name_asc `{Collation} (a b : Product) : result jsnum :=
  rbind (receiver "localeCompare" (title a)) (fun t =>
    Ok (Num (inject_Z (localeCompare t (to_string_prop (title b)))))).

Definition price_asc (a b : Product) : result jsnum :=
  Ok (js_sub (price a) (price b)).

Definition price_desc (a b : Product) : result jsnum :=
  Ok (js_sub (price b) (price a)).

(** The three stages and their composition.  A stage whose argument is
    [null], [undefined] or not an array returns a new empty array. *)

Definition filterProducts (st : State) (productList : option loc)
  : M Product loc :=
  match productList with
  | None => new_array []
  | Some l =>
      if negb (truthy_string (trim (searchQuery st))) then ret l
      else array_filter (search_callback st) l
  end.

Definition filterByCategory (st : State) (productList : option loc)
  : M Product loc :=
  match productList with
  | None => new_array []
  | Some l =>
      if String.eqb (filterCategory st) "all" then ret l
      else array_filter (category_callback st) l
  end.

Definition sortProducts `{Collation} (st : State) (productList : option loc)
  : M Product loc :=
  match productList with
  | None => new_array []
  | Some l =>
      bind (array_spread l) (fun sorted =>
        if String.eqb (sortBy st) "name-asc" then array_sort name_asc sorted
        else if String.eqb (sortBy st) "price-asc" then array_sort price_asc sorted
        else if String.eqb (sortBy st) "price-desc" then array_sort price_desc sorted
        else ret sorted)
  end.

Definition getProcessedProducts `{Collation} (st : State) : M Product loc :=
  match products st with
  | None => new_array []
  | Some l =>
      bind (filterByCategory st (Some l)) (fun processed =>
      bind (filterProducts st (Some processed)) (fun processed =>
      sortProducts st (Some processed)))
  end.

(** One render with state [st] and store [h]. *)
Definition render `{Collation} (st : State) (h : list (list Product))
  : result Screen :=
  match getProcessedProducts st h with
  | Ok (l', h') => Ok {| state := st; store := h'; displayedProducts := l' |}
  | Throw e => Throw e
  end.

(** Each interaction sets state and so causes a render. *)
Fixpoint session `{Collation} (acts : list Interaction) (scr : Screen)
  : result Screen :=
  match acts with
  | [] => Ok scr
  | i :: acts' =>
      rbind (render (handle i (state scr)) (store scr)) (session acts')
  end.

(** *** Vocabulary: what each stage computes on the contents of its
    argument *)

Definition category_list (st : State) (xs : list Product) : result (list Product) :=
  if String.eqb (filterCategory st) "all" then Ok xs
  else filter_by (category_callback st) xs.

Definition search_list (st : State) (xs : list Product) : result (list Product) :=
  if negb (truthy_string (trim (searchQuery st))) then Ok xs
  else filter_by (search_callback st) xs.

Definition sort_list `{Collation} (st : State) (xs : list Product)
  : result (list Product) :=
  if String.eqb (sortBy st) "name-asc" then sort_by name_asc xs
  else if String.eqb (sortBy st) "price-asc" then sort_by price_asc xs
  else if String.eqb (sortBy st) "price-desc" then sort_by price_desc xs
  else Ok xs.

Definition project_list `{Collation} (st : State) (xs : list Product)
  : result (list Product) :=
  rbind (category_list st xs) (fun ys =>
  rbind (search_list st ys) (fun zs => sort_list st zs)).

(** [m] run in [h] behaves as [r] says: it throws what [r] throws, or
    returns a reference to an array with the contents [r] gives, in a
    store that extends [h]. *)
Definition runs_as (m : M Product loc) (h : list (list Product))
           (r : result (list Product)) : Prop :=
  match r with
  | Ok out => exists l' h', m h = Ok (l', h') /\ h' !! l' = Some out /\ extends h h'
  | Throw e => m h = Throw e
  end.

(** *** Vocabulary: the projection as a function of the query descriptor *)

(** The query descriptor: search text, category, sort key. *)
Record QueryDescriptor := {
  q_searchText : string;
  q_category : string;
  q_sortKey : SortKey
}.

Definition default_query : QueryDescriptor :=
  {| q_searchText := ""; q_category := "all"; q_sortKey := NameAsc |}.

(** An interaction changes one field of the descriptor. *)
Definition update (q : QueryDescriptor) (i : Interaction) : QueryDescriptor :=
  match i with
  | ChangeText text =>
      {| q_searchText := text; q_category := q_category q; q_sortKey := q_sortKey q |}
  | ClearSearch =>
      {| q_searchText := ""; q_category := q_category q; q_sortKey := q_sortKey q |}
  | PressSort k =>
      {| q_searchText := q_searchText q; q_category := q_category q; q_sortKey := k |}
  | PressCategory c =>
      {| q_searchText := q_searchText q; q_category := c; q_sortKey := q_sortKey q |}
  end.

(** The state holds the descriptor [q]. *)
Definition holds (st : State) (q : QueryDescriptor) : Prop :=
  searchQuery st = q_searchText q /\
  filterCategory st = q_category q /\
  sortBy st = sort_literal (q_sortKey q).

Definition category_stage (q : QueryDescriptor) (xs : list Product) : list Product :=
  if String.eqb (q_category q) "all" then xs
  else List.filter (fun p => strict_eq_string (category p) (q_category q)) xs.

(** The search stage keeps the products whose lower-cased title contains
    [needle]; an all-whitespace search text keeps everything; a product
    without a title does not match. *)
Definition search_stage (needle : string) (q : QueryDescriptor)
           (xs : list Product) : list Product :=
  if truthy_string (trim (q_searchText q))
  then List.filter
         (fun p => includes (toLowerCase (or_empty (title p))) needle) xs
  else xs.

(** A stable sort by the descriptor's key; a missing title sorts as the
    empty string, a missing price as zero. *)
Definition sort_stage `{Collation} (q : QueryDescriptor) (xs : list Product)
  : list Product :=
  match q_sortKey q with
  | NameAsc => isort title_le xs
  | PriceAsc => isort price_le xs
  | PriceDesc => isort (fun a b => price_le b a) xs
  end.

(** The projection in the specification's words (section 4.2): category
    stage, then search stage on the trimmed, lower-cased search text, then
    sort stage. *)
Definition project_spec `{Collation} (q : QueryDescriptor) (raw : list Product)
  : list Product :=
  sort_stage q
    (search_stage (toLowerCase (trim (q_searchText q))) q (category_stage q raw)).

(** The same projection with the search text matched as it was typed. *)
Definition project_as_typed `{Collation} (q : QueryDescriptor) (raw : list Product)
  : list Product :=
  sort_stage q
    (search_stage (toLowerCase (q_searchText q)) q (category_stage q raw)).

(** *** States of the examples *)

Definition smartphones_by_price : State :=
  {| searchQuery := ""; sortBy := "price-desc";
     filterCategory := "smartphones"; products := Some 0 |}.

Definition searching (text : string) : State :=
  {| searchQuery := text; sortBy := "name-asc";
     filterCategory := "all"; products := Some 0 |}.

(** *** The scroll-to-top button *)

(** [a > q] and [a <= q] for a number [a]: both are false on [NaN]. *)
Definition js_gt (a : jsnum) (q : Q) : bool :=
  match a with
  | NaN => false
  | Num x => match (x ?= q)%Q with Gt => true | _ => false end
  end.

Definition js_le (a : jsnum) (q : Q) : bool :=
  match a with
  | NaN => false
  | Num x => match (x ?= q)%Q with Gt => false | _ => true end
  end.

(** [handleScroll]: [offsetY] is [event.nativeEvent.contentOffset.y],
    [showScrollTop] the value of the [useState(false)] cell; the result is
    the value of the cell after the handler. *)
Definition handleScroll (offsetY : jsnum) (showScrollTop : bool) : bool :=
  if js_gt offsetY 300 && negb showScrollTop then true
  else if js_le offsetY 300 && showScrollTop then false
  else showScrollTop.

(** The cell after a series of scroll events, from its initial [false]. *)
Definition scrolled (offsets : list jsnum) : bool :=
  fold_left (fun shown offsetY => handleScroll offsetY shown) offsets false.

End HomeScreen.

(* ===================================================================== *)
(** ** src/hooks/useProducts.js *)
(* ===================================================================== *)

Module UseProducts.
Import JsString Catalog JsValue.

(** The four [useState] cells.  [products] and [filteredProducts] hold
    references to arrays. *)
Record Hook := {
  products : loc;
  filteredProducts : loc;
  loading : bool;
  error : option string
}.

Definition setProducts (data : loc) (hk : Hook) : Hook :=
  {| products := data; filteredProducts := filteredProducts hk;
     loading := loading hk; error := error hk |}.

Definition setFilteredProducts (data : loc) (hk : Hook) : Hook :=
  {| products := products hk; filteredProducts := data;
     loading := loading hk; error := error hk |}.

Definition setLoading (b : bool) (hk : Hook) : Hook :=
  {| products := products hk; filteredProducts := filteredProducts hk;
     loading := b; error := error hk |}.

Definition setError (e : option string) (hk : Hook) : Hook :=
  {| products := products hk; filteredProducts := filteredProducts hk;
     loading := loading hk; error := e |}.

(** The first render: [useState([])] twice, [useState(true)],
    [useState(null)]. *)
Definition mount : M Product Hook :=
  bind (new_array []) (fun p =>
  bind (new_array []) (fun f =>
  ret {| products := p; filteredProducts := f; loading := true; error := None |})).

(** [loadProducts] up to its [await]. *)
Definition loadProducts_start (hk : Hook) : Hook :=
  setError None (setLoading true hk).

(** [loadProducts] after [fetchProducts()] has resolved with the array
    [data]: both cells receive the same array. *)
Definition loadProducts_resolved (data : list Product) (hk : Hook) : M Product Hook :=
  bind (new_array data) (fun d =>
  ret (setLoading false (setFilteredProducts d (setProducts d hk)))).

(** [loadProducts] after [fetchProducts()] has rejected with [err]. *)
Definition loadProducts_rejected (err : JsError) (hk : Hook) : Hook :=
  setLoading false (setError (Some (err_message err)) hk).

Definition search_callback (searchLower : string) (product : Product) : result bool :=
  let titleLower := toLowerCase (or_empty (title product)) in
  let descriptionLower := toLowerCase (or_empty (description product)) in
  Ok (includes titleLower searchLower || includes descriptionLower searchLower).

(** [if (!query.trim())]: [trim] is called on the argument as it comes,
    without a guard, so an argument that is not a string throws. *)
Definition handleSearch (query : jsval) (hk : Hook) : M Product Hook :=
  match query with
  | VStr q =>
      if negb (truthy_string (trim q))
      then ret (setFilteredProducts (products hk) hk)
      else
        let searchLower := toLowerCase q in
        bind (array_filter (search_callback searchLower) (products hk)) (fun filtered =>
        ret (setFilteredProducts filtered hk))
  | VUndefined | VNull =>
      throw (type_error ("Cannot read properties of " +:+ to_string query +:+
                         " (reading 'trim')"))
  | _ => throw (type_error "query.trim is not a function")
  end.

Definition by_title `{Collation} (a b : Product) : result jsnum :=
  Ok (Num (inject_Z (localeCompare (or_empty (title a)) (or_empty (title b))))).

Definition by_price (a b : Product) : result jsnum :=
  Ok (Num (or_zero (price a) - or_zero (price b))).

(** The [switch] compares [sortBy] with [===]. *)
Definition handleSort `{Collation} (sortBy : jsval) (hk : Hook) : M Product Hook :=
  bind (array_spread (filteredProducts hk)) (fun sorted =>
  bind (if is_string sortBy "title" then array_sort by_title sorted
        else if is_string sortBy "price" then array_sort by_price sorted
        else ret sorted) (fun _ =>
  ret (setFilteredProducts sorted hk))).

Definition category_callback (c : string) (product : Product) : result bool :=
  Ok (String.eqb (toLowerCase (or_empty (category product))) (toLowerCase c)).

(** [!category || category.trim() === '' || category.toLowerCase() === 'all'];
    a truthy value that is not a string has no [trim]. *)
Definition handleFilter (category : jsval) (hk : Hook) : M Product Hook :=
  if negb (truthy category)
  then ret (setFilteredProducts (products hk) hk)
  else
    match category with
    | VStr c =>
        if String.eqb (trim c) "" || String.eqb (toLowerCase c) "all"
        then ret (setFilteredProducts (products hk) hk)
        else
          bind (array_filter (category_callback c) (products hk)) (fun filtered =>
          ret (setFilteredProducts filtered hk))
    | _ => throw (type_error "category.trim is not a function")
    end.

(** *** Vocabulary *)

(** What [handleSort] leaves in the copy it makes. *)
Definition sorted_copy `{Collation} (sortBy : jsval) (xs : list Product)
  : list Product :=
  if is_string sortBy "title" then isort title_le xs
  else if is_string sortBy "price" then isort price_le xs
  else xs.

(** The hook after the scenario's products have been loaded into array 0. *)
Definition loaded : Hook :=
  {| products := 0; filteredProducts := 0; loading := false; error := None |}.

(** *** Vocabulary: the hook in use *)

(** [loadProducts] as a whole, given how [fetchProducts()] settles. *)
Definition loadProducts (r : result (list Product)) (hk : Hook) : M Product Hook :=
  let hk1 := loadProducts_start hk in
  match r with
  | Ok data => loadProducts_resolved data hk1
  | Throw err => ret (loadProducts_rejected err hk1)
  end.

(** A call of one of the three handlers that the hook returns. *)
Inductive Call :=
| Search (query : jsval)
| Sort (sortBy : jsval)
| Filter (category : jsval).

Definition call `{Collation} (c : Call) (hk : Hook) : M Product Hook :=
  match c with
  | Search query => handleSearch query hk
  | Sort sortBy => handleSort sortBy hk
  | Filter category => handleFilter category hk
  end.

(** Calls one after the other; each one sees the state the one before
    has set. *)
Fixpoint calls `{Collation} (cs : list Call) (hk : Hook) : M Product Hook :=
  match cs with
  | [] => ret hk
  | c :: cs' => bind (call c hk) (calls cs')
  end.

(** The arguments are what the handlers expect: the query given to
    [handleSearch] is a string, the category given to [handleFilter] a
    string or a falsy value. *)
Definition expected_argument (c : Call) : bool :=
  match c with
  | Search (VStr _) => true
  | Search _ => false
  | Sort _ => true
  | Filter (VStr _) => true
  | Filter v => negb (truthy v)
  end.

(** The predicates of [handleSearch] and [handleFilter]. *)
Definition matches_search (query : string) (p : Product) : bool :=
  includes (toLowerCase (or_empty (title p))) (toLowerCase query) ||
  includes (toLowerCase (or_empty (description p))) (toLowerCase query).

Definition in_category (c : string) (p : Product) : bool :=
  String.eqb (toLowerCase (or_empty (category p))) (toLowerCase c).

End UseProducts.

(* ===================================================================== *)
(** ** src/services/api.js *)
(* ===================================================================== *)

Module Api.
Import JsString JsValue.

(** *** The network and promises *)

#[local] Unset Elimination Schemes.
Inductive Json :=
| JNull
| JBool (b : bool)
| JNum (z : Z)
| JStr (s : string)
| JArr (items : list Json)
| JObj (fields : list (string * Json)).
#[local] Set Elimination Schemes.

(** A request as [fetch] receives it: the URL, and the [aborted] flag of
    the signal in its options when it is given one. *)
Record Request := { url : string; signal : option bool }.

(** A response: the status, and the body as [response.json()] parses it
    ([None]: the body is not JSON). *)
Record Response := { status : Z; body : option Json }.

(** [response.ok] *)
Definition ok (r : Response) : bool :=
  ((200 <=? status r) && (status r <=? 299))%Z.

(** How the network answers a request. *)
Inductive FetchOutcome :=
| NetworkFailure (e : JsError)
| Responded (r : Response).

(** The promise an async function returns, as it stands when the call
    returns: already settled, or suspended at an [await] on a network
    request, with what the function does once the network answers. *)
Inductive async (A : Type) : Type :=
| Settled (r : result A)
| AwaitFetch (req : Request) (k : FetchOutcome -> async A).
Arguments Settled {A} r.
Arguments AwaitFetch {A} req k.

(** How a call expression completes: with a value, or by an exception
    that reaches the caller's [catch] in the same turn. *)
Inductive completion (A : Type) : Type :=
| Normal (a : A)
| Abrupt (e : JsError).
Arguments Normal {A} a.
Arguments Abrupt {A} e.

(** A call of an [async function] always returns a promise: an exception
    in the body, even before the first [await], rejects that promise. *)
Definition async_function {A} (body : async A) : completion (async A) :=
  Normal body.

Definition resolve {A} (a : A) : async A := Settled (Ok a).
Definition reject {A} (e : JsError) : async A := Settled (Throw e).

Fixpoint await {A B} (c : async A) (k : A -> async B) : async B :=
  match c with
  | Settled (Ok a) => k a
  | Settled (Throw e) => Settled (Throw e)
  | AwaitFetch req k' => AwaitFetch req (fun o => await (k' o) k)
  end.

Fixpoint try_catch {A} (c : async A) (handler : JsError -> async A) : async A :=
  match c with
  | Settled (Ok a) => Settled (Ok a)
  | Settled (Throw e) => handler e
  | AwaitFetch req k => AwaitFetch req (fun o => try_catch (k o) handler)
  end.

(** [fetch(url, { signal })]: with a signal that is already aborted the
    promise rejects and nothing is sent. *)
Definition fetch (u : string) (sig : option bool) : async Response :=
  match sig with
  | Some true => reject (MkError NAbortError "Aborted")
  | _ =>
      AwaitFetch {| url := u; signal := sig |} (fun o =>
        match o with
        | NetworkFailure e => reject e
        | Responded r => resolve r
        end)
  end.

(** [response.json()] *)
Definition json (r : Response) : async Json :=
  match body r with
  | Some j => resolve j
  | None => reject (MkError NSyntaxError "JSON Parse error")
  end.

(** [data.products]; [None] is [undefined]. *)
Definition get_products (data : Json) : async (option Json) :=
  match data with
  | JNull => reject (type_error "Cannot read properties of null (reading 'products')")
  | JObj fields =>
      resolve (snd <$> List.find (fun kv => String.eqb (fst kv) "products") fields)
  | _ => resolve None
  end.

(** *** The four functions *)

Definition API_BASE_URL : string := "https://dummyjson.com".

(** [new Error(message)] *)
Definition error (message : string) : JsError := MkError NError message.

(** [new Error(`HTTP error! status: ${response.status}`)] *)
Definition http_error (response : Response) : JsError :=
  error ("HTTP error! status: " +:+ to_string (VNum (status response))).

(** The [catch] blocks log and throw the error again. *)
Definition rethrow {A} (e : JsError) : async A := reject e.

(** The [n]-th argument of a call; a missing one is [undefined]. *)
Definition arg (n : nat) (args : list jsval) : jsval := nth n args VUndefined.

Definition fetchProducts (args : list jsval) : completion (async (option Json)) :=
  async_function (
    try_catch
      (await (fetch (API_BASE_URL +:+ "/products?limit=150") None) (fun response =>
       if negb (ok response) then reject (http_error response)
       else await (json response) (fun data => get_products data)))
      rethrow).

(** [!v || v.trim() === ''] *)
Definition is_blank (name : string) (v : jsval) : result bool :=
  if negb (truthy v) then Ok true
  else rbind (string_method (name +:+ ".trim") trim v) (fun t => Ok (String.eqb t "")).

Definition searchProducts (args : list jsval) : completion (async (option Json)) :=
  let query := arg 0 args in
  async_function (
    match is_blank "query" query with
    | Throw e => reject e
    | Ok true => reject (error "Search query cannot be empty")
    | Ok false =>
        try_catch
          (let encodedQuery := encodeURIComponent (to_string query) in
           await (fetch (API_BASE_URL +:+ "/products/search?q=" +:+ encodedQuery) None)
             (fun response =>
           if negb (ok response) then reject (http_error response)
           else await (json response) (fun data => get_products data)))
          rethrow
    end).

Definition fetchProductsByCategory (args : list jsval)
  : completion (async (option Json)) :=
  let category := arg 0 args in
  async_function (
    match is_blank "category" category with
    | Throw e => reject e
    | Ok true => reject (error "Category cannot be empty")
    | Ok false =>
        try_catch
          (let encodedCategory := encodeURIComponent (to_string category) in
           await (fetch (API_BASE_URL +:+ "/products/category/" +:+ encodedCategory) None)
             (fun response =>
           if negb (ok response) then reject (http_error response)
           else await (json response) (fun data => get_products data)))
          rethrow
    end).

(** [id === null || id === undefined || id === ''] *)
Definition is_missing (id : jsval) : bool :=
  match id with
  | VNull | VUndefined => true
  | _ => is_string id ""
  end.

Definition fetchProductById (args : list jsval) : completion (async Json) :=
  let id := arg 0 args in
  async_function (
    if is_missing id
    then reject (error "Product ID is required and cannot be empty")
    else
      try_catch
        (await (fetch (API_BASE_URL +:+ "/products/" +:+ to_string id) None)
           (fun response =>
         if negb (ok response) then
           if (status response =? 404)%Z
           then reject (error ("Product with ID " +:+ to_string id +:+ " not found"))
           else reject (http_error response)
         else await (json response) (fun data => resolve data)))
        rethrow).

(** *** Vocabulary *)

(** Runs a promise to its end against a network [net]: the requests that
    were sent, in order, and the outcome. *)
Fixpoint run {A} (net : Request -> FetchOutcome) (c : async A)
  : list Request * result A :=
  match c with
  | Settled r => ([], r)
  | AwaitFetch req k =>
      let (reqs, r) := run net (k (net req)) in (req :: reqs, r)
  end.

(** The requests a call sends. *)
Definition requests {A} (net : Request -> FetchOutcome)
           (call : completion (async A)) : list Request :=
  match call with
  | Normal c => fst (run net c)
  | Abrupt _ => []
  end.

(** What a call does against a network: how it completes, the requests
    sent and the way the promise settles. *)
Definition outcome {A} (net : Request -> FetchOutcome)
           (call : completion (async A)) : completion (list Request * result A) :=
  match call with
  | Normal c => Normal (run net c)
  | Abrupt e => Abrupt e
  end.

(** An argument that is missing, [null], empty or blank. *)
Definition empty_input (v : jsval) : Prop :=
  v = VUndefined \/ v = VNull \/ exists s, v = VStr s /\ trim s = "".

(** An id that is missing, [null] or the empty string. *)
Definition empty_id (v : jsval) : Prop :=
  v = VUndefined \/ v = VNull \/ v = VStr "".

(** The three functions that validate their argument. *)
Inductive Validating := SearchProducts | FetchProductsByCategory | FetchProductById.

(** The argument that each of them refuses. *)
Definition refused (f : Validating) (v : jsval) : Prop :=
  match f with
  | SearchProducts | FetchProductsByCategory => empty_input v
  | FetchProductById => empty_id v
  end.

(** The call has returned a promise that is already rejected with the
    function's validation error, and against the network [net] it sends
    nothing. *)
Definition rejected_on_return (net : Request -> FetchOutcome)
           (f : Validating) (args : list jsval) : Prop :=
  match f with
  | SearchProducts =>
      searchProducts args =
        Normal (Settled (Throw (error "Search query cannot be empty"))) /\
      requests net (searchProducts args) = []
  | FetchProductsByCategory =>
      fetchProductsByCategory args =
        Normal (Settled (Throw (error "Category cannot be empty"))) /\
      requests net (fetchProductsByCategory args) = []
  | FetchProductById =>
      fetchProductById args =
        Normal (Settled (Throw (error "Product ID is required and cannot be empty"))) /\
      requests net (fetchProductById args) = []
  end.

(** The call throws at its caller, before it returns anything. *)
Definition thrown_at_caller {A} (call : completion (async A)) : Prop :=
  exists e, call = Abrupt e.

(** Answers of the network in the examples. *)
Definition essence_mascara : Json :=
  JObj [("id", JNum 1); ("title", JStr "Essence Mascara Lash Princess")].

Definition found : FetchOutcome :=
  Responded {| status := 200; body := Some essence_mascara |}.

Definition offline : FetchOutcome :=
  NetworkFailure (MkError NTypeError "Network request failed").

Definition silent_network (_ : Request) : FetchOutcome := offline.

(** The request each function sends when it accepts its argument. *)
Definition products_request : Request :=
  {| url := API_BASE_URL +:+ "/products?limit=150"; signal := None |}.

Definition search_request (query : string) : Request :=
  {| url := API_BASE_URL +:+ "/products/search?q=" +:+ encodeURIComponent query;
     signal := None |}.

Definition category_request (category : string) : Request :=
  {| url := API_BASE_URL +:+ "/products/category/" +:+ encodeURIComponent category;
     signal := None |}.

Definition product_request (id : jsval) : Request :=
  {| url := API_BASE_URL +:+ "/products/" +:+ to_string id; signal := None |}.

(** [data.products] of a parsed body, where reading it does not throw. *)
Definition products_field (data : Json) : option Json :=
  match data with
  | JObj fields => snd <$> List.find (fun kv => String.eqb (fst kv) "products") fields
  | _ => None
  end.

End Api.

(* ===================================================================== *)
(** ** src/hooks/useProductDetail.js *)
(* ===================================================================== *)

Module UseProductDetail.
Import JsString JsValue Api.

(** One run of the effect: the [productId] it closed over, its
    [AbortController] (the [aborted] flag of its signal), the promise that
    [fetchProduct] awaits, and whether [fetchProduct] has resumed from
    the [await]. *)
Record Effect := {
  productId : jsval;
  aborted : bool;
  fetching : async Json;
  resumed : bool
}.

(** The three [useState] cells, the runs of the effect in the order in
    which they started (the last one is the current one), and whether the
    component has been unmounted. *)
Record Hook := {
  product : option Json;
  loading : bool;
  error : option string;
  effects : list Effect;
  unmounted : bool
}.

(** What the hook returns: [{ product, loading, error }]. *)
Definition view (hk : Hook) : option Json * bool * option string :=
  (product hk, loading hk, error hk).

(** [useState(null)], [useState(true)], [useState(null)]. *)
Definition initial : Hook :=
  {| product := None; loading := true; error := None;
     effects := []; unmounted := false |}.

Definition setProduct (p : option Json) (hk : Hook) : Hook :=
  {| product := p; loading := loading hk; error := error hk;
     effects := effects hk; unmounted := unmounted hk |}.

Definition setLoading (b : bool) (hk : Hook) : Hook :=
  {| product := product hk; loading := b; error := error hk;
     effects := effects hk; unmounted := unmounted hk |}.

Definition setError (e : option string) (hk : Hook) : Hook :=
  {| product := product hk; loading := loading hk; error := e;
     effects := effects hk; unmounted := unmounted hk |}.

Definition with_effects (es : list Effect) (hk : Hook) : Hook :=
  {| product := product hk; loading := loading hk; error := error hk;
     effects := es; unmounted := unmounted hk |}.

(** [controller.abort()] *)
Definition abort (e : Effect) : Effect :=
  {| productId := productId e; aborted := true;
     fetching := fetching e; resumed := resumed e |}.

(** The cleanup function of the current run of the effect. *)
Definition cleanup (hk : Hook) : Hook :=
  with_effects (alter abort (length (effects hk) - 1) (effects hk)) hk.

(** The promise that [await] waits for.  A call that throws instead of
    returning a promise takes [fetchProduct] to its [catch] block as a
    rejected promise does. *)
Definition awaited {A} (call : completion (async A)) : async A :=
  match call with
  | Normal p => p
  | Abrupt e => Settled (Throw e)
  end.

(** The effect: a new controller, and [fetchProduct()] up to its [await]:
    [setError(null)], [setLoading(true)] and the call of
    [fetchProductById(productId, controller.signal)]. *)
Definition run_effect (pid : jsval) (hk : Hook) : Hook :=
  let hk1 := setLoading true (setError None hk) in
  let promise := awaited (fetchProductById [pid; VSignal false]) in
  with_effects
    (effects hk1 ++
       [{| productId := pid; aborted := false;
           fetching := promise; resumed := false |}])
    hk1.

(** [err.message || 'Failed to fetch product'] *)
Definition message_or_default (err : JsError) : string :=
  if truthy_string (err_message err) then err_message err
  else "Failed to fetch product".

(** [fetchProduct] from the [await] on, for a run whose signal's flag is
    [is_aborted] when the promise settles with [r]: the rest of [try] or
    the [catch] block, then [finally].  The assignments of state happen in
    the same turn. *)
Definition resume (is_aborted : bool) (r : result Json) (hk : Hook) : Hook :=
  let after_try_catch :=
    match r with
    | Ok data => if is_aborted then hk else setProduct (Some data) hk
    | Throw err =>
        if is_aborted then hk else setError (Some (message_or_default err)) hk
    end in
  if is_aborted then after_try_catch else setLoading false after_try_catch.

(** The promise after the network has answered its pending request. *)
Definition answer {A} (o : FetchOutcome) (c : async A) : async A :=
  match c with
  | Settled r => Settled r
  | AwaitFetch _ k => k o
  end.

(** What happens to a hook: a render with some [productId], the unmount,
    and the answer to the fetch of run [i]. *)
Inductive Event :=
| Render (pid : jsval)
| Unmount
| Settle (i : nat) (o : FetchOutcome).

Definition step (hk : Hook) (ev : Event) : Hook :=
  match ev with
  | Render pid =>
      if unmounted hk then hk
      else
        match last (effects hk) with
        | None => run_effect pid hk
        | Some e =>
            if same_value (productId e) pid then hk
            else run_effect pid (cleanup hk)
        end
  | Unmount =>
      if unmounted hk then hk
      else
        let hk1 := cleanup hk in
        {| product := product hk1; loading := loading hk1; error := error hk1;
           effects := effects hk1; unmounted := true |}
  | Settle i o =>
      match effects hk !! i with
      | None => hk
      | Some e =>
          if resumed e then hk
          else
            match answer o (fetching e) with
            | Settled r =>
                let e' := {| productId := productId e; aborted := aborted e;
                             fetching := Settled r; resumed := true |} in
                resume (aborted e) r (with_effects (<[i := e']> (effects hk)) hk)
            | AwaitFetch req k =>
                let e' := {| productId := productId e; aborted := aborted e;
                             fetching := AwaitFetch req k; resumed := false |} in
                with_effects (<[i := e']> (effects hk)) hk
            end
      end
  end.

Definition run_events (hk : Hook) (evs : list Event) : Hook :=
  fold_left step evs hk.

(** *** Vocabulary *)

(** The run [i] of the effect has had its controller aborted. *)
Definition is_aborted (hk : Hook) (i : nat) : Prop :=
  exists e, effects hk !! i = Some e /\ aborted e = true.

(** The events that cancel the current run: the unmount, and a render
    with another [productId]. *)
Definition cancels (hk : Hook) (ev : Event) : Prop :=
  match ev with
  | Unmount => True
  | Render pid =>
      exists e, last (effects hk) = Some e /\ same_value (productId e) pid = false
  | Settle _ _ => False
  end.

(** Run [i] is the current run of a mounted hook. *)
Definition current (hk : Hook) (i : nat) : Prop :=
  unmounted hk = false /\ S i = length (effects hk).

(** The three combinations of the request state: loading, with neither
    data nor error; loaded, with data and no error; failed, with an error
    and no data. *)
Definition request_state_ok (v : option Json * bool * option string) : bool :=
  match v with
  | (None, true, None) => true
  | (Some _, false, None) => true
  | (None, false, Some _) => true
  | _ => false
  end.

(** The product id changes after a successful fetch. *)
Definition second_product : list Event :=
  [Render (VNum 1); Settle 0 found; Render (VNum 2)].

(** How the promise of [fetchProductById(pid, signal)] settles when the
    network answers its request with [o]. *)
Definition settles (pid : jsval) (o : FetchOutcome) : result Json :=
  snd (run (fun _ => o) (awaited (fetchProductById [pid; VSignal false]))).


(** The state is as run [e] has left it when its fetch settled: the
    product of a fetch that resolved, or the message of one that was
    rejected. *)
Definition settled_by (e : Effect) (hk : Hook) : Prop :=
  resumed e = true /\
  match fetching e with
  | Settled (Ok data) => product hk = Some data /\ error hk = None
  | Settled (Throw err) => error hk = Some (message_or_default err)
  | AwaitFetch _ _ => False
  end.

(** How the cells and the runs of the effect stand to each other: a run
    whose controller is not aborted is the current one; while [loading]
    there is no error; and once [loading] has ended, the latest run has
    settled the state. *)
Definition coherent (hk : Hook) : Prop :=
  (forall i e, effects hk !! i = Some e -> aborted e = false -> current hk i) /\
  (loading hk = true -> error hk = None) /\
  (loading hk = false ->
   exists e, last (effects hk) = Some e /\ settled_by e hk).

(** Two runs that are the same, or are both cancelled runs for the same
    [productId]: such runs differ at most in what the network has
    answered them. *)
Definition alike (e1 e2 : Effect) : Prop :=
  e1 = e2 \/
  (aborted e1 = true /\ aborted e2 = true /\ productId e1 = productId e2).

(** Two hooks that return the same and whose runs are alike. *)
Definition same_but_for_cancelled (hk1 hk2 : Hook) : Prop :=
  view hk1 = view hk2 /\ unmounted hk1 = unmounted hk2 /\
  Forall2 alike (effects hk1) (effects hk2).

End UseProductDetail.

(* ===================================================================== *)
(** ** src/screens/ProductDetailScreen.js *)
(* ===================================================================== *)

Module ProductDetailScreen.
Import JsString JsValue Api UseProductDetail.

(** [ToBoolean] of a parsed JSON value. *)
Definition truthy_json (j : Json) : bool :=
  match j with
  | JNull => false
  | JBool b => b
  | JNum z => negb (z =? 0)%Z
  | JStr s => truthy_string s
  | JArr _ | JObj _ => true
  end.

(** [product.name] for a [product] that is not [null]: the property of
    an object; [undefined] ([None]) when the object has no such property
    and on a number, a string, a boolean or an array, none of which has a
    property of the names read here. *)
Definition property (name : string) (product : Json) : option Json :=
  match product with
  | JObj fields => snd <$> List.find (fun kv => String.eqb (fst kv) name) fields
  | _ => None
  end.

(** [v.toFixed(digits)] as far as it can fail: a number has the method;
    reading it from [undefined] or [null] throws, and on any other value
    it is not a function.  The text it returns for a number is left
    out. *)
Definition toFixed (what : string) (v : option Json) : result unit :=
  match v with
  | Some (JNum _) => Ok tt
  | None =>
      Throw (type_error "Cannot read properties of undefined (reading 'toFixed')")
  | Some JNull =>
      Throw (type_error "Cannot read properties of null (reading 'toFixed')")
  | Some _ => Throw (type_error (what +:+ ".toFixed is not a function"))
  end.

(** The four [return] statements of the component: the spinner, the error
    view, "Product not found", and the details of [product]. *)
Inductive Branch :=
| LoadingIndicator
| ErrorView (detail : jsval)
| ProductNotFound
| ProductDetails (product : Json).

(** [error.message] for the [error] the hook returns: the hook stores a
    string, and a string has no property [message]. *)
Definition message_of (error : string) : jsval := VUndefined.

(** [if (!product)] and the details.  Building the details calls
    [product.price.toFixed(2)] and then [product.rating.toFixed(1)];
    the other expressions of the branch read properties of [product] and
    compare them, which does not throw. *)
Definition show_product (product : option Json) : result Branch :=
  match product with
  | Some p =>
      if truthy_json p then
        rbind (toFixed "product.price" (property "price" p)) (fun _ =>
        rbind (toFixed "product.rating" (property "rating" p)) (fun _ =>
        Ok (ProductDetails p)))
      else Ok ProductNotFound
  | None => Ok ProductNotFound
  end.

(** What the component function returns, or throws, with what
    [useProductDetail] returns: [if (loading)], [if (error)],
    [if (!product)], and the details.  A render reads the state as it is:
    the effect for a new [productId] runs after the render that receives
    it. *)
Definition screen (v : option Json * bool * option string) : result Branch :=
  let '(product, loading, error) := v in
  if loading then Ok LoadingIndicator
  else
    match error with
    | Some e => if truthy_string e then Ok (ErrorView (message_of e))
                else show_product product
    | None => show_product product
    end.

(** *** Vocabulary *)


(** A product with a price and a rating, and the answer that carries
    it. *)
Definition red_nail_polish : Json :=
  JObj [("id", JNum 5); ("title", JStr "Red Nail Polish");
        ("price", JNum 9); ("rating", JNum 4)].

Definition found_polish : FetchOutcome :=
  Responded {| status := 200; body := Some red_nail_polish |}.

End ProductDetailScreen.

(* ##################################################################### *)
(** * Part II: properties *)
(* ##################################################################### *)

(* ===================================================================== *)
(** ** Strings *)
(* ===================================================================== *)

Module JsStringFacts.
Import JsString.

Lemma append_nil_r (s : string) : s +:+ "" = s.
Proof. induction s as [|c s IH]; simpl; [reflexivity | now rewrite IH]. Qed.

Lemma append_assoc (a b c : string) : (a +:+ b) +:+ c = a +:+ (b +:+ c).
Proof. induction a as [|x a IH]; simpl; [reflexivity | now rewrite IH]. Qed.

Lemma starts_with_spec (s t : string) :
  starts_with s t = true <-> exists b, s = t +:+ b.
Proof.
  revert s. induction t as [|y t IH]; intros s; simpl.
  - split; [intros _; now exists s | reflexivity].
  - destruct s as [|x s].
    + split; [discriminate | intros [b Hb]; discriminate].
    + rewrite andb_true_iff, Ascii.eqb_eq, IH. split.
      * intros [-> [b ->]]. now exists b.
      * intros [b Hb]. injection Hb as -> ->. split; [reflexivity | now exists b].
Qed.

Lemma includes_spec (s t : string) :
  includes s t = true <-> infix_of t s.
Proof.
  unfold infix_of. induction s as [|x s IH].
  - simpl. rewrite orb_false_r, starts_with_spec. split.
    + intros [b Hb]. exists "", b. exact Hb.
    + intros [a [b Hab]]. destruct a; [now exists b | discriminate].
  - cbn [includes]. rewrite orb_true_iff, starts_with_spec, IH. split.
    + intros [[b Hb] | [a [b Hab]]].
      * exists "", b. exact Hb.
      * exists (String x a), b. simpl. now rewrite Hab.
    + intros [a [b Hab]]. destruct a as [|y a].
      * left. now exists b.
      * right. simpl in Hab. injection Hab as _ Hs. now exists a, b.
Qed.

Lemma infix_of_trans (u t s : string) :
  infix_of u t -> infix_of t s -> infix_of u s.
Proof.
  intros [a [b ->]] [a' [b' ->]].
  exists (a' +:+ a), (b +:+ b'). now rewrite !append_assoc.
Qed.

Lemma toLowerCase_app (a b : string) :
  toLowerCase (a +:+ b) = toLowerCase a +:+ toLowerCase b.
Proof. induction a as [|x a IH]; simpl; [reflexivity | now rewrite IH]. Qed.

Lemma toLowerCase_infix (t s : string) :
  infix_of t s -> infix_of (toLowerCase t) (toLowerCase s).
Proof.
  intros [a [b ->]]. exists (toLowerCase a), (toLowerCase b).
  now rewrite !toLowerCase_app.
Qed.

Lemma trimStart_suffix (s : string) : exists a, s = a +:+ trimStart s.
Proof.
  induction s as [|c s [a IH]]; simpl.
  - now exists "".
  - destruct (is_white_space c).
    + exists (String c a). simpl. now rewrite <- IH.
    + now exists "".
Qed.

Lemma trimEnd_prefix (s : string) : exists b, s = trimEnd s +:+ b.
Proof.
  induction s as [|c s [b IH]]; simpl.
  - now exists "".
  - destruct (trimEnd s) as [|y r] eqn:E.
    + destruct (is_white_space c).
      * now exists (String c s).
      * exists s. reflexivity.
    + exists b. simpl in *. now rewrite <- IH.
Qed.

(** The trimmed string is a contiguous part of the original one. *)
Lemma trim_infix (s : string) : infix_of (trim s) s.
Proof.
  unfold trim. destruct (trimStart_suffix s) as [a Ha].
  destruct (trimEnd_prefix (trimStart s)) as [b Hb].
  exists a, b. now rewrite <- Hb.
Qed.

(** What is contained untrimmed is contained trimmed. *)
Lemma includes_lower_trim (title q : string) :
  includes (toLowerCase title) (toLowerCase q) = true ->
  includes (toLowerCase title) (toLowerCase (trim q)) = true.
Proof.
  rewrite !includes_spec. intros H.
  eapply infix_of_trans; [| exact H].
  apply toLowerCase_infix, trim_infix.
Qed.

Lemma compare_code_units_antisym (a b : string) :
  Z.sgn (compare_code_units b a) = (- Z.sgn (compare_code_units a b))%Z.
Proof.
  revert b. induction a as [|x a IH]; intros [|y b]; cbn; try reflexivity.
  rewrite (N.compare_antisym (N_of_ascii x) (N_of_ascii y)).
  destruct (N_of_ascii x ?= N_of_ascii y)%N; cbn; auto.
Qed.

Lemma compare_code_units_trans (a b c : string) :
  (compare_code_units a b <= 0)%Z -> (compare_code_units b c <= 0)%Z ->
  (compare_code_units a c <= 0)%Z.
Proof.
  revert b c. induction a as [|x a IH]; intros [|y b] [|z c]; cbn; try lia.
  destruct (N.compare_spec (N_of_ascii x) (N_of_ascii y)) as [Exy|Lxy|Gxy];
    destruct (N.compare_spec (N_of_ascii y) (N_of_ascii z)) as [Eyz|Lyz|Gyz];
    try lia.
  - rewrite Exy, Eyz, N.compare_refl. apply IH.
  - intros _ _. rewrite Exy. now apply N.compare_lt_iff in Lyz as ->.
  - intros _ _. rewrite <- Eyz. now apply N.compare_lt_iff in Lxy as ->.
  - intros _ _.
    assert (H : (N_of_ascii x < N_of_ascii z)%N) by lia.
    now apply N.compare_lt_iff in H as ->.
Qed.

(** Comparison by code units is a consistent comparator. *)
Lemma code_units_consistent : Consistent code_units.
Proof.
  split.
  - exact compare_code_units_antisym.
  - exact compare_code_units_trans.
Qed.

End JsStringFacts.

(* ===================================================================== *)
(** ** Sorting and filtering *)
(* ===================================================================== *)

Section SortingFacts.
Context {A : Type}.
Variable before : A -> A -> bool.

Lemma insert_perm (x : A) (l : list A) :
  Permutation (x :: l) (insert before x l).
Proof.
  induction l as [|y l IH]; simpl; [reflexivity |].
  destruct (before x y); [reflexivity |].
  rewrite perm_swap. now apply perm_skip.
Qed.

Lemma isort_perm (l : list A) : Permutation l (isort before l).
Proof.
  induction l as [|x l IH]; simpl; [reflexivity |].
  rewrite <- insert_perm. now apply perm_skip.
Qed.

Lemma isort_In (l : list A) (a : A) : In a (isort before l) <-> In a l.
Proof.
  split; apply Permutation_in; [symmetry |]; apply isort_perm.
Qed.

Section Ordered.
Hypothesis before_total :
  forall a b, before a b = true \/ before b a = true.
Hypothesis before_trans :
  forall a b c, before a b = true -> before b c = true -> before a c = true.

Lemma insert_sorted (x : A) (l : list A) :
  StronglySorted (fun a b => before a b = true) l ->
  StronglySorted (fun a b => before a b = true) (insert before x l).
Proof.
  induction 1 as [|y l Hs IH Hy]; simpl.
  - repeat constructor.
  - destruct (before x y) eqn:E.
    + constructor; [now constructor |].
      constructor; [exact E |].
      eapply List.Forall_impl; [| exact Hy]. intros b Hb.
      now apply before_trans with y.
    + constructor; [exact IH |].
      assert (Hyx : before y x = true)
        by (destruct (before_total x y) as [H | H]; congruence).
      rewrite !List.Forall_forall in *. intros b Hb.
      apply (Permutation_in _ (Permutation_sym (insert_perm x l))) in Hb.
      destruct Hb as [<- | Hb]; [exact Hyx | now apply Hy].
Qed.

Lemma isort_sorted (l : list A) :
  StronglySorted (fun a b => before a b = true) (isort before l).
Proof.
  induction l as [|x l IH]; simpl; [constructor | now apply insert_sorted].
Qed.

(** Inserting [x] moves it only past elements it is not tied with. *)
Lemma insert_stable (z x : A) (l : list A) :
  List.filter (tied before z) (insert before x l)
  = List.filter (tied before z) (x :: l).
Proof.
  induction l as [|y l IH]; [reflexivity |].
  cbn [insert]. destruct (before x y) eqn:E; [reflexivity |].
  cbn [List.filter] in *. rewrite IH.
  destruct (tied before z y) eqn:Ey, (tied before z x) eqn:Ex; try reflexivity.
  exfalso. unfold tied in *.
  apply andb_true_iff in Ey as [Hzy Hyz], Ex as [Hzx Hxz].
  rewrite (before_trans x z y Hxz Hzy) in E. discriminate.
Qed.

(** Stability: the elements tied with any given [z] come out in the
    order in which they went in. *)
Lemma isort_stable (z : A) (l : list A) :
  List.filter (tied before z) (isort before l) = List.filter (tied before z) l.
Proof.
  induction l as [|x l IH]; [reflexivity |].
  cbn [isort]. rewrite insert_stable. cbn [List.filter]. now rewrite IH.
Qed.

End Ordered.

(** The sort depends on the order only through the elements it meets. *)
Lemma insert_ext (before' : A -> A -> bool) (x : A) (s : list A) :
  (forall y, In y s -> before x y = before' x y) ->
  insert before x s = insert before' x s.
Proof.
  induction s as [|y s IH]; intros H; [reflexivity |].
  cbn [insert]. rewrite <- (H y) by now left.
  destruct (before x y); [reflexivity |].
  rewrite IH; [reflexivity |]. intros; apply H; now right.
Qed.

Lemma isort_ext (before' : A -> A -> bool) (l : list A) :
  (forall x y, In x l -> In y l -> before x y = before' x y) ->
  isort before l = isort before' l.
Proof.
  induction l as [|x l IH]; intros H; [reflexivity |].
  cbn [isort]. rewrite <- IH by (intros; apply H; now right).
  apply insert_ext. intros y Hy.
  apply H; [now left | right; now apply isort_In].
Qed.

End SortingFacts.

Section SortByFacts.
Context {A : Type}.
Variable cmp : A -> A -> result jsnum.

Lemma insert_by_perm (x : A) (l out : list A) :
  insert_by cmp x l = Ok out -> Permutation (x :: l) out.
Proof.
  revert out. induction l as [|y l IH]; intros out; simpl.
  - intros [= <-]. reflexivity.
  - destruct (cmp x y) as [v|e]; simpl; [| discriminate].
    destruct (is_positive v).
    + destruct (insert_by cmp x l) as [r|e]; simpl; [| discriminate].
      intros [= <-]. rewrite perm_swap. apply perm_skip. now apply IH.
    + intros [= <-]. reflexivity.
Qed.

(** Whatever the comparator, a sort that returns has permuted its input. *)
Lemma sort_by_perm (l out : list A) :
  sort_by cmp l = Ok out -> Permutation l out.
Proof.
  revert out. induction l as [|x l IH]; intros out; simpl.
  - intros [= <-]. reflexivity.
  - destruct (sort_by cmp l) as [s|e]; simpl; [| discriminate].
    intros H. apply insert_by_perm in H. rewrite <- H.
    apply perm_skip. now apply IH.
Qed.

(** Where the comparator does not throw, [sort_by] is the pure sort. *)
Variable f : A -> A -> jsnum.

Lemma insert_by_pure (x : A) (l : list A) :
  (forall b, In b l -> cmp x b = Ok (f x b)) ->
  insert_by cmp x l = Ok (insert (fun a b => negb (is_positive (f a b))) x l).
Proof.
  induction l as [|y l IH]; intros H; simpl; [reflexivity |].
  rewrite (H y) by now left. simpl.
  destruct (is_positive (f x y)); simpl; [| reflexivity].
  rewrite IH; [reflexivity |]. intros b Hb. apply H. now right.
Qed.

Lemma sort_by_pure (l : list A) :
  (forall a b, In a l -> In b l -> cmp a b = Ok (f a b)) ->
  sort_by cmp l = Ok (isort (fun a b => negb (is_positive (f a b))) l).
Proof.
  induction l as [|x l IH]; intros H; simpl; [reflexivity |].
  rewrite IH by (intros a b Ha Hb; apply H; now right). simpl.
  apply insert_by_pure. intros b Hb. apply H; [now left |].
  right. eapply isort_In. exact Hb.
Qed.

End SortByFacts.

Section FilterByFacts.
Context {A : Type}.
Variable p : A -> result bool.

Lemma filter_by_pure (g : A -> bool) (l : list A) :
  (forall a, In a l -> p a = Ok (g a)) ->
  filter_by p l = Ok (List.filter g l).
Proof.
  induction l as [|x l IH]; intros H; simpl; [reflexivity |].
  rewrite (H x) by now left. simpl.
  rewrite IH by (intros a Ha; apply H; now right). reflexivity.
Qed.

(** Whatever is kept was in the input and passed the test. *)
Lemma filter_by_kept (l out : list A) :
  filter_by p l = Ok out ->
  Forall (fun a => In a l /\ p a = Ok true) out.
Proof.
  revert out. induction l as [|x l IH]; intros out; simpl.
  - intros [= <-]. constructor.
  - destruct (p x) as [keep|e] eqn:Ex; simpl; [| discriminate].
    destruct (filter_by p l) as [r|e]; simpl; [| discriminate].
    specialize (IH r eq_refl).
    assert (Hr : Forall (fun a => (x = a \/ In a l) /\ p a = Ok true) r).
    { eapply List.Forall_impl; [| exact IH]. intros a [Ha Hp]. auto. }
    intros [= <-]. destruct keep; [constructor; auto | exact Hr].
Qed.

End FilterByFacts.

Lemma is_positive_spec (q : Q) : is_positive (Num q) = true <-> (0 < q)%Q.
Proof.
  unfold is_positive. rewrite Qlt_alt.
  destruct (0 ?= q)%Q; split; congruence.
Qed.

Lemma not_positive_diff (x y : Q) :
  negb (is_positive (Num (x - y))) = Qle_bool x y.
Proof.
  destruct (Qle_bool x y) eqn:E.
  - apply Qle_bool_iff in E. apply negb_true_iff.
    destruct (is_positive (Num (x - y))) eqn:P; [| reflexivity].
    apply is_positive_spec in P. lra.
  - apply negb_false_iff, is_positive_spec.
    assert (~ (x <= y)%Q) by (rewrite <- Qle_bool_iff; congruence). lra.
Qed.

Lemma not_positive_inject (z : Z) :
  negb (is_positive (Num (inject_Z z))) = (z <=? 0)%Z.
Proof.
  destruct (z <=? 0)%Z eqn:E.
  - apply Z.leb_le in E. apply negb_true_iff.
    destruct (is_positive (Num (inject_Z z))) eqn:P; [| reflexivity].
    apply is_positive_spec in P. change 0%Q with (inject_Z 0) in P.
    rewrite <- Zlt_Qlt in P. lia.
  - apply Z.leb_gt in E. apply negb_false_iff, is_positive_spec.
    change 0%Q with (inject_Z 0). now rewrite <- Zlt_Qlt.
Qed.

Lemma Qeq_bool_le (x y : Q) : Qle_bool x y && Qle_bool y x = Qeq_bool x y.
Proof.
  apply eq_true_iff_eq.
  rewrite andb_true_iff, !Qle_bool_iff, Qeq_bool_iff. split.
  - intros [H1 H2]. now apply Qle_antisym.
  - intros H. rewrite H. split; apply Qle_refl.
Qed.

Lemma StronglySorted_impl {A} (R S : A -> A -> Prop) (l : list A) :
  (forall a b, R a b -> S a b) -> StronglySorted R l -> StronglySorted S l.
Proof.
  intros HRS. induction 1 as [|a l Hs IH Ha]; constructor; [exact IH |].
  eapply List.Forall_impl; [| exact Ha]. intros b. apply HRS.
Qed.

(* ===================================================================== *)
(** ** The store *)
(* ===================================================================== *)

Section StoreFacts.
Context {A : Type}.
Implicit Types (h : list (list A)) (l : loc).

Lemma extends_refl h : extends h h.
Proof. exists []. now rewrite app_nil_r. Qed.

Lemma extends_trans h1 h2 h3 : extends h1 h2 -> extends h2 h3 -> extends h1 h3.
Proof. intros [e1 ->] [e2 ->]. exists (e1 ++ e2). now rewrite app_assoc. Qed.

Lemma extends_lookup h h' l xs :
  extends h h' -> h !! l = Some xs -> h' !! l = Some xs.
Proof. intros [ext ->] H. now apply lookup_app_l_Some. Qed.

Lemma extends_length h h' : extends h h' -> length h <= length h'.
Proof. intros [ext ->]. rewrite length_app. lia. Qed.

Lemma extends_snoc h xs : extends h (h ++ [xs]).
Proof. now exists [xs]. Qed.

Lemma lookup_snoc h xs : (h ++ [xs]) !! length h = Some xs.
Proof. now apply list_lookup_middle. Qed.

Lemma insert_snoc h xs ys : <[length h := ys]> (h ++ [xs]) = h ++ [ys].
Proof. induction h as [|x h IH]; simpl; [reflexivity | now rewrite IH]. Qed.

Lemma contents_lookup h l xs : h !! l = Some xs -> contents l h = xs.
Proof. unfold contents. now intros ->. Qed.

End StoreFacts.

(* ===================================================================== *)
(** ** The displayed list of the home screen *)
(* ===================================================================== *)

Module HomeScreenFacts.
Import JsString JsStringFacts Catalog HomeScreen.

Section Pipeline.
Context `{collation : Collation}.

(** *** The stages in the store *)

Lemma array_filter_runs p h l xs :
  h !! l = Some xs ->
  runs_as (array_filter p l) h (filter_by p xs).
Proof.
  intros Hl. destruct (filter_by p xs) as [out|e] eqn:E;
    unfold runs_as, array_filter; rewrite (contents_lookup _ _ _ Hl), E.
  - exists (length h), (h ++ [out]).
    repeat split; [apply lookup_snoc | apply extends_snoc].
  - reflexivity.
Qed.

Lemma ret_runs h l xs : h !! l = Some xs -> runs_as (ret l) h (Ok xs).
Proof.
  intros Hl. exists l, h. repeat split; [exact Hl | apply extends_refl].
Qed.

Lemma filterByCategory_runs st h l xs :
  h !! l = Some xs ->
  runs_as (filterByCategory st (Some l)) h (category_list st xs).
Proof.
  intros Hl. unfold filterByCategory, category_list.
  destruct (String.eqb _ _); [now apply ret_runs | now apply array_filter_runs].
Qed.

Lemma filterProducts_runs st h l xs :
  h !! l = Some xs ->
  runs_as (filterProducts st (Some l)) h (search_list st xs).
Proof.
  intros Hl. unfold filterProducts, search_list.
  destruct (negb _); [now apply ret_runs | now apply array_filter_runs].
Qed.

(** The sort stage always returns the copy it made, never its argument. *)
Lemma sortProducts_run st h l xs :
  h !! l = Some xs ->
  match sort_list st xs with
  | Ok out => sortProducts st (Some l) h = Ok (length h, h ++ [out])
  | Throw e => sortProducts st (Some l) h = Throw e
  end.
Proof.
  intros Hl. unfold sortProducts, sort_list, bind, array_spread, new_array.
  cbv beta iota. rewrite (contents_lookup _ _ _ Hl).
  assert (Hsort : forall cmp,
    match sort_by cmp xs with
    | Ok out => array_sort cmp (length h) (h ++ [xs]) = Ok (length h, h ++ [out])
    | Throw e => array_sort cmp (length h) (h ++ [xs]) = Throw e
    end).
  { intros cmp. unfold array_sort.
    rewrite (contents_lookup _ _ _ (lookup_snoc h xs)).
    destruct (sort_by cmp xs); [now rewrite insert_snoc | reflexivity]. }
  destruct (String.eqb _ "name-asc"); [apply Hsort |].
  destruct (String.eqb _ "price-asc"); [apply Hsort |].
  destruct (String.eqb _ "price-desc"); [apply Hsort |].
  reflexivity.
Qed.

(** The pipeline in the store computes [project_list] on the contents of
    [products], returns it in an array that was not there before, and
    leaves every array of the store as it was. *)
Lemma getProcessedProducts_run st h l raw :
  products st = Some l -> h !! l = Some raw ->
  match project_list st raw with
  | Ok out =>
      exists l' h', getProcessedProducts st h = Ok (l', h') /\
        h' !! l' = Some out /\ extends h h' /\ length h <= l'
  | Throw e => getProcessedProducts st h = Throw e
  end.
Proof.
  intros Hp Hl.
  assert (Hrun : getProcessedProducts st h =
    match filterByCategory st (Some l) h with
    | Ok (l1, h1) =>
        match filterProducts st (Some l1) h1 with
        | Ok (l2, h2) => sortProducts st (Some l2) h2
        | Throw e => Throw e
        end
    | Throw e => Throw e
    end).
  { unfold getProcessedProducts, bind. now rewrite Hp. }
  rewrite Hrun. clear Hrun. unfold project_list.
  pose proof (filterByCategory_runs st h l raw Hl) as H1.
  destruct (category_list st raw) as [ys|e]; cbn [rbind runs_as] in H1 |- *;
    [| now rewrite H1].
  destruct H1 as (l1 & h1 & R1 & Hl1 & E1). rewrite R1.
  pose proof (filterProducts_runs st h1 l1 ys Hl1) as H2.
  destruct (search_list st ys) as [zs|e]; cbn [rbind runs_as] in H2 |- *;
    [| now rewrite H2].
  destruct H2 as (l2 & h2 & R2 & Hl2 & E2). rewrite R2.
  pose proof (sortProducts_run st h2 l2 zs Hl2) as H3.
  destruct (sort_list st zs) as [out|e]; [| exact H3].
  exists (length h2), (h2 ++ [out]). rewrite H3. repeat split.
  - apply lookup_snoc.
  - eapply extends_trans; [exact E1 |].
    eapply extends_trans; [exact E2 | apply extends_snoc].
  - etransitivity; [apply (extends_length _ _ E1) | apply (extends_length _ _ E2)].
Qed.

Lemma getProcessedProducts_inv st h l raw l' h' :
  products st = Some l -> h !! l = Some raw ->
  getProcessedProducts st h = Ok (l', h') ->
  exists out, project_list st raw = Ok out /\ h' !! l' = Some out /\
              extends h h' /\ length h <= l'.
Proof.
  intros Hp Hl R. pose proof (getProcessedProducts_run st h l raw Hp Hl) as H.
  destruct (project_list st raw) as [out|e]; [| congruence].
  destruct H as (l2 & h2 & R2 & H2). rewrite R in R2.
  injection R2 as <- <-. now exists out.
Qed.

(** *** What survives the stages, whatever the products look like *)

Lemma category_list_kept st xs out :
  category_list st xs = Ok out ->
  Forall (fun a => In a xs /\
            (filterCategory st <> "all" ->
             category a = Some (filterCategory st))) out.
Proof.
  unfold category_list.
  destruct (String.eqb_spec (filterCategory st) "all") as [E|E].
  - intros [= <-]. apply List.Forall_forall. intros a Ha.
    split; [exact Ha | congruence].
  - intros H. apply filter_by_kept in H.
    eapply List.Forall_impl; [| exact H].
    intros a [Ha Hp]. split; [exact Ha |]. intros _.
    unfold category_callback, strict_eq_string in Hp.
    destruct (category a) as [c|] eqn:Ec; [| discriminate].
    injection Hp as Hp. apply String.eqb_eq in Hp. now subst.
Qed.

Lemma search_list_kept st xs out :
  search_list st xs = Ok out ->
  Forall (fun a => In a xs /\
            (truthy_string (trim (searchQuery st)) = true ->
             title_contains (toLowerCase (searchQuery st)) a)) out.
Proof.
  unfold search_list. destruct (truthy_string _) eqn:E; cbn [negb].
  - intros H. apply filter_by_kept in H.
    eapply List.Forall_impl; [| exact H].
    intros a [Ha Hp]. split; [exact Ha |]. intros _.
    unfold search_callback, receiver in Hp.
    destruct (title a) as [t|] eqn:Et; [| discriminate].
    exists t. split; [exact Et |]. now injection Hp.
  - intros [= <-]. apply List.Forall_forall. intros a Ha.
    split; [exact Ha | discriminate].
Qed.

Lemma sort_list_perm st xs out :
  sort_list st xs = Ok out -> Permutation xs out.
Proof.
  unfold sort_list.
  destruct (String.eqb _ "name-asc"); [apply sort_by_perm |].
  destruct (String.eqb _ "price-asc"); [apply sort_by_perm |].
  destruct (String.eqb _ "price-desc"); [apply sort_by_perm |].
  now intros [= <-].
Qed.

Lemma project_list_kept st raw out :
  project_list st raw = Ok out ->
  Forall (fun a => In a raw /\
            (filterCategory st <> "all" ->
             category a = Some (filterCategory st)) /\
            (truthy_string (trim (searchQuery st)) = true ->
             title_contains (toLowerCase (searchQuery st)) a)) out.
Proof.
  unfold project_list.
  destruct (category_list st raw) as [ys|e] eqn:E1; cbn [rbind]; [| discriminate].
  destruct (search_list st ys) as [zs|e] eqn:E2; cbn [rbind]; [| discriminate].
  intros E3.
  apply category_list_kept in E1. apply search_list_kept in E2.
  apply sort_list_perm in E3.
  rewrite List.Forall_forall in *. intros a Ha.
  apply (Permutation_in _ (Permutation_sym E3)) in Ha.
  destruct (E2 a Ha) as [Hys Hs]. destruct (E1 a Hys) as [Hraw Hc]. auto.
Qed.

(** *** The stages on well-formed products *)

Lemma well_formed_inv (p : Product) :
  well_formed p = true ->
  exists t c, title p = Some t /\ price p = Some c.
Proof.
  unfold well_formed. destruct (title p), (price p); try discriminate. eauto.
Qed.

Lemma forallb_In (xs : list Product) :
  forallb well_formed xs = true -> forall a, In a xs -> well_formed a = true.
Proof. intros H. now apply forallb_forall. Qed.

Lemma forallb_filter (g : Product -> bool) (xs : list Product) :
  forallb well_formed xs = true ->
  forallb well_formed (List.filter g xs) = true.
Proof.
  rewrite !forallb_forall. intros H a Ha. apply filter_In in Ha. now apply H.
Qed.

Lemma name_asc_pure xs a b :
  forallb well_formed xs = true -> In a xs -> In b xs ->
  name_asc a b = Ok (Num (inject_Z
    (localeCompare (or_empty (title a)) (or_empty (title b))))).
Proof.
  intros Hwf Ha Hb. unfold name_asc.
  destruct (well_formed_inv a (forallb_In xs Hwf a Ha)) as (ta & ca & -> & _).
  destruct (well_formed_inv b (forallb_In xs Hwf b Hb)) as (tb & cb & -> & _).
  reflexivity.
Qed.

Lemma price_asc_pure xs a b :
  forallb well_formed xs = true -> In a xs -> In b xs ->
  price_asc a b = Ok (Num (or_zero (price a) - or_zero (price b))).
Proof.
  intros Hwf Ha Hb. unfold price_asc.
  destruct (well_formed_inv a (forallb_In xs Hwf a Ha)) as (ta & ca & _ & ->).
  destruct (well_formed_inv b (forallb_In xs Hwf b Hb)) as (tb & cb & _ & ->).
  reflexivity.
Qed.

Lemma price_desc_pure xs a b :
  forallb well_formed xs = true -> In a xs -> In b xs ->
  price_desc a b = Ok (Num (or_zero (price b) - or_zero (price a))).
Proof.
  intros Hwf Ha Hb. unfold price_desc.
  destruct (well_formed_inv a (forallb_In xs Hwf a Ha)) as (ta & ca & _ & ->).
  destruct (well_formed_inv b (forallb_In xs Hwf b Hb)) as (tb & cb & _ & ->).
  reflexivity.
Qed.

Lemma sort_list_name st xs :
  sortBy st = "name-asc" -> forallb well_formed xs = true ->
  sort_list st xs = Ok (isort title_le xs).
Proof.
  intros Hk Hwf. unfold sort_list. rewrite Hk. cbn [String.eqb Ascii.eqb Bool.eqb andb].
  rewrite (sort_by_pure name_asc (fun a b => Num (inject_Z
    (localeCompare (or_empty (title a)) (or_empty (title b)))))).
  - f_equal. apply isort_ext. intros x y _ _. apply not_positive_inject.
  - intros a b. now apply name_asc_pure.
Qed.

Lemma sort_list_price_asc st xs :
  sortBy st = "price-asc" -> forallb well_formed xs = true ->
  sort_list st xs = Ok (isort price_le xs).
Proof.
  intros Hk Hwf. unfold sort_list. rewrite Hk. cbn [String.eqb Ascii.eqb Bool.eqb andb].
  rewrite (sort_by_pure price_asc (fun a b => Num
    (or_zero (price a) - or_zero (price b)))).
  - f_equal. apply isort_ext. intros x y _ _. apply not_positive_diff.
  - intros a b. now apply price_asc_pure.
Qed.

Lemma sort_list_price_desc st xs :
  sortBy st = "price-desc" -> forallb well_formed xs = true ->
  sort_list st xs = Ok (isort (fun a b => price_le b a) xs).
Proof.
  intros Hk Hwf. unfold sort_list. rewrite Hk. cbn [String.eqb Ascii.eqb Bool.eqb andb].
  rewrite (sort_by_pure price_desc (fun a b => Num
    (or_zero (price b) - or_zero (price a)))).
  - f_equal. apply isort_ext. intros x y _ _. apply not_positive_diff.
  - intros a b. now apply price_desc_pure.
Qed.

Lemma sort_list_total st xs :
  forallb well_formed xs = true -> exists out, sort_list st xs = Ok out.
Proof.
  intros Hwf.
  destruct (String.eqb_spec (sortBy st) "name-asc") as [E1|E1];
    [eexists; now apply sort_list_name |].
  destruct (String.eqb_spec (sortBy st) "price-asc") as [E2|E2];
    [eexists; now apply sort_list_price_asc |].
  destruct (String.eqb_spec (sortBy st) "price-desc") as [E3|E3];
    [eexists; now apply sort_list_price_desc |].
  exists xs. unfold sort_list.
  apply String.eqb_neq in E1, E2, E3. now rewrite E1, E2, E3.
Qed.

Lemma kept_well_formed (P : Product -> Prop) xs out :
  forallb well_formed xs = true ->
  Forall (fun a => In a xs /\ P a) out ->
  forallb well_formed out = true.
Proof.
  intros Hwf H. apply forallb_forall. intros a Ha.
  rewrite List.Forall_forall in H. destruct (H a Ha) as [Hin _].
  now apply (forallb_In xs).
Qed.

Lemma search_list_filter st xs :
  forallb well_formed xs = true ->
  search_list st xs =
    Ok (if truthy_string (trim (searchQuery st))
        then List.filter (fun p => includes (toLowerCase (or_empty (title p)))
                                            (toLowerCase (searchQuery st))) xs
        else xs).
Proof.
  intros Hwf. unfold search_list.
  destruct (truthy_string _); cbn [negb]; [| reflexivity].
  apply filter_by_pure. intros a Ha. unfold search_callback.
  destruct (well_formed_inv a (forallb_In xs Hwf a Ha)) as (t & c & -> & _).
  reflexivity.
Qed.

Lemma category_list_filter st xs :
  category_list st xs =
    Ok (if String.eqb (filterCategory st) "all" then xs
        else List.filter (fun p => strict_eq_string (category p) (filterCategory st)) xs).
Proof.
  unfold category_list. destruct (String.eqb _ _); [reflexivity |].
  now apply filter_by_pure.
Qed.

(** On well-formed products the pipeline does not throw. *)
Lemma project_list_total st raw :
  forallb well_formed raw = true -> exists out, project_list st raw = Ok out.
Proof.
  intros Hwf. unfold project_list.
  rewrite category_list_filter. cbn [rbind].
  set (ys := if String.eqb _ _ then _ else _).
  assert (Hys : forallb well_formed ys = true).
  { subst ys. destruct (String.eqb _ _); [exact Hwf | now apply forallb_filter]. }
  rewrite (search_list_filter st ys Hys). cbn [rbind].
  apply sort_list_total.
  destruct (truthy_string _); [now apply forallb_filter | exact Hys].
Qed.

Lemma getProcessedProducts_total st h l raw :
  products st = Some l -> h !! l = Some raw ->
  forallb well_formed raw = true ->
  exists l' h', getProcessedProducts st h = Ok (l', h').
Proof.
  intros Hp Hl Hwf. pose proof (getProcessedProducts_run st h l raw Hp Hl) as H.
  destruct (project_list_total st raw Hwf) as [out E]. rewrite E in H.
  destruct H as (l' & h' & R & _). eauto.
Qed.

(** *** The pipeline as a function of the query descriptor *)

Lemma category_list_pure st q xs :
  holds st q -> category_list st xs = Ok (category_stage q xs).
Proof.
  intros (_ & Hc & _). rewrite category_list_filter.
  unfold category_stage. now rewrite Hc.
Qed.

Lemma search_list_pure st q xs :
  holds st q -> forallb well_formed xs = true ->
  search_list st xs = Ok (search_stage (toLowerCase (q_searchText q)) q xs).
Proof.
  intros (Hs & _ & _) Hwf. rewrite (search_list_filter st xs Hwf).
  unfold search_stage. now rewrite Hs.
Qed.

Lemma sort_list_pure st q xs :
  holds st q -> forallb well_formed xs = true ->
  sort_list st xs = Ok (sort_stage q xs).
Proof.
  intros (_ & _ & Hk) Hwf. unfold sort_stage.
  destruct (q_sortKey q); cbn [sort_literal] in Hk.
  - now apply sort_list_name.
  - now apply sort_list_price_asc.
  - now apply sort_list_price_desc.
Qed.

(** On well-formed products the pipeline computes [project_as_typed]. *)
Lemma project_list_pure st q raw :
  holds st q -> forallb well_formed raw = true ->
  project_list st raw = Ok (project_as_typed q raw).
Proof.
  intros Hq Hwf. unfold project_list, project_as_typed.
  rewrite (category_list_pure st q raw Hq). cbn [rbind].
  assert (Hwf1 : forallb well_formed (category_stage q raw) = true).
  { unfold category_stage. destruct (String.eqb _ _);
      [exact Hwf | now apply forallb_filter]. }
  rewrite (search_list_pure st q _ Hq Hwf1). cbn [rbind].
  apply sort_list_pure; [exact Hq |].
  unfold search_stage. destruct (truthy_string _);
    [now apply forallb_filter | exact Hwf1].
Qed.

(** *** The screen across renders *)

Lemma holds_initial fetched : holds (initial fetched) default_query.
Proof. repeat split. Qed.

Lemma holds_handle st q i : holds st q -> holds (handle i st) (update q i).
Proof. intros (H1 & H2 & H3). destruct i; repeat split; assumption. Qed.

Lemma products_handle st i : products (handle i st) = products st.
Proof. now destruct i. Qed.

Lemma render_projection st q h l raw :
  holds st q -> products st = Some l -> h !! l = Some raw ->
  forallb well_formed raw = true ->
  exists scr, render st h = Ok scr /\ state scr = st /\
    store scr !! displayedProducts scr = Some (project_as_typed q raw) /\
    store scr !! l = Some raw /\
    displayedProducts scr <> l.
Proof.
  intros Hq Hp Hl Hwf.
  pose proof (getProcessedProducts_run st h l raw Hp Hl) as H.
  rewrite (project_list_pure st q raw Hq Hwf) in H.
  destruct H as (l' & h' & R & Hout & Hext & Hfresh).
  exists {| state := st; store := h'; displayedProducts := l' |}.
  unfold render. rewrite R. repeat split; cbn; try assumption.
  - now apply (extends_lookup h).
  - apply lookup_lt_Some in Hl. lia.
Qed.

Lemma session_projection raw l acts :
  forallb well_formed raw = true ->
  forall scr q,
    holds (state scr) q -> products (state scr) = Some l ->
    store scr !! l = Some raw ->
    store scr !! displayedProducts scr = Some (project_as_typed q raw) ->
    exists scr', session acts scr = Ok scr' /\
      store scr' !! displayedProducts scr' =
        Some (project_as_typed (fold_left update acts q) raw) /\
      store scr' !! l = Some raw.
Proof.
  intros Hwf. induction acts as [|i acts IH]; intros scr q Hq Hp Hl Hd.
  - exists scr. now repeat split.
  - cbn [session fold_left].
    destruct (render_projection (handle i (state scr)) (update q i)
                (store scr) l raw) as (scr1 & R & Hst & Hd1 & Hl1 & _);
      [now apply holds_handle | now rewrite products_handle | assumption
      | assumption |].
    rewrite R. cbn [rbind]. apply IH; rewrite ?Hst; try assumption.
    + now apply holds_handle.
    + now rewrite products_handle.
Qed.

(** *** Properties of the displayed list *)

(** C1 (category narrowing).  With a category other than "all" selected,
    every product of the displayed list has exactly that category
    (string equality, so the case counts); products of another category,
    of a differently cased one or without a category do not appear.  On
    well-formed products the pipeline does return a list. *)
Theorem category_narrowing st h l raw :
  products st = Some l -> h !! l = Some raw ->
  filterCategory st <> "all" ->
  (forallb well_formed raw = true ->
   exists l' h', getProcessedProducts st h = Ok (l', h')) /\
  (forall l' h', getProcessedProducts st h = Ok (l', h') ->
   exists out, h' !! l' = Some out /\
     Forall (fun p => category p = Some (filterCategory st)) out).
Proof.
  intros Hp Hl Hc. split.
  - exact (getProcessedProducts_total st h l raw Hp Hl).
  - intros l' h' R.
    destruct (getProcessedProducts_inv st h l raw l' h' Hp Hl R)
      as (out & E & Hout & _).
    exists out. split; [exact Hout |].
    apply project_list_kept in E.
    eapply List.Forall_impl; [| exact E]. intros a (_ & Ha & _). auto.
Qed.

(** C3 (search containment).  With a search text that is not blank,
    every product of the displayed list has a title, and the lower-cased
    title contains the trimmed, lower-cased search text.  On well-formed
    products the pipeline does return a list. *)
Theorem search_containment st h l raw :
  products st = Some l -> h !! l = Some raw ->
  trim (searchQuery st) <> "" ->
  (forallb well_formed raw = true ->
   exists l' h', getProcessedProducts st h = Ok (l', h')) /\
  (forall l' h', getProcessedProducts st h = Ok (l', h') ->
   exists out, h' !! l' = Some out /\
     Forall (title_contains (toLowerCase (trim (searchQuery st)))) out).
Proof.
  intros Hp Hl Hq. split.
  - exact (getProcessedProducts_total st h l raw Hp Hl).
  - intros l' h' R.
    destruct (getProcessedProducts_inv st h l raw l' h' Hp Hl R)
      as (out & E & Hout & _).
    exists out. split; [exact Hout |].
    apply project_list_kept in E.
    eapply List.Forall_impl; [| exact E]. intros a (_ & _ & Ha).
    destruct Ha as (t & Ht & Hin).
    + destruct (trim (searchQuery st)); [congruence | reflexivity].
    + exists t. split; [exact Ht | now apply includes_lower_trim].
Qed.

(** C2, as amended.  After the fetched collection is in place, whatever
    the user does (typing, clearing, pressing sort and category buttons,
    in any order), the displayed list is the projection of the fetched
    collection under the descriptor those interactions leave behind:
    category stage, then search stage, then sort stage, with the search
    stage matching the lower-cased search text as typed.  The fetched
    collection itself stays as it was. *)
Theorem displayed_is_projection raw h l acts :
  h !! l = Some raw -> forallb well_formed raw = true ->
  exists scr,
    rbind (render (initial (Some l)) h) (session acts) = Ok scr /\
    store scr !! displayedProducts scr =
      Some (project_as_typed (fold_left update acts default_query) raw) /\
    store scr !! l = Some raw.
Proof.
  intros Hl Hwf.
  destruct (render_projection (initial (Some l)) default_query h l raw)
    as (scr0 & R & Hst & Hd & Hl0 & _);
    [apply holds_initial | reflexivity | assumption | assumption |].
  rewrite R. cbn [rbind].
  apply session_projection; rewrite ?Hst; try assumption.
  - apply holds_initial.
  - reflexivity.
Qed.

(** *** The sort stage *)

Section Collation.
Context `{!Consistent collation}.

Lemma title_le_total a b : title_le a b = true \/ title_le b a = true.
Proof.
  unfold title_le. rewrite !Z.leb_le.
  pose proof (localeCompare_antisym (or_empty (title a)) (or_empty (title b))).
  lia.
Qed.

Lemma title_le_trans a b c :
  title_le a b = true -> title_le b c = true -> title_le a c = true.
Proof. unfold title_le. rewrite !Z.leb_le. apply localeCompare_trans. Qed.

Lemma price_le_total a b : price_le a b = true \/ price_le b a = true.
Proof.
  unfold price_le. rewrite !Qle_bool_iff.
  destruct (Qlt_le_dec (or_zero (price b)) (or_zero (price a)));
    [right; now apply Qlt_le_weak | now left].
Qed.

Lemma price_le_trans a b c :
  price_le a b = true -> price_le b c = true -> price_le a c = true.
Proof. unfold price_le. rewrite !Qle_bool_iff. apply Qle_trans. Qed.

Lemma tied_title a b : tied title_le a b = same_key NameAsc a b.
Proof.
  unfold tied, title_le, same_key.
  pose proof (localeCompare_antisym (or_empty (title a)) (or_empty (title b))).
  apply eq_true_iff_eq.
  rewrite andb_true_iff, !Z.leb_le, Z.eqb_eq. lia.
Qed.

Lemma tied_price_asc a b : tied price_le a b = same_key PriceAsc a b.
Proof. apply Qeq_bool_le. Qed.

Lemma tied_price_desc a b :
  tied (fun a b => price_le b a) a b = same_key PriceDesc a b.
Proof. unfold tied. rewrite andb_comm. apply Qeq_bool_le. Qed.

(** The sort stage of the descriptor's key sorts, and is stable. *)
Lemma sort_stage_sorted q xs :
  StronglySorted (in_order (q_sortKey q)) (sort_stage q xs) /\
  Permutation xs (sort_stage q xs) /\
  (forall z, List.filter (same_key (q_sortKey q) z) (sort_stage q xs) =
             List.filter (same_key (q_sortKey q) z) xs).
Proof.
  unfold sort_stage. destruct (q_sortKey q); cbn [in_order].
  - split; [| split].
    + eapply StronglySorted_impl;
        [| apply (isort_sorted title_le title_le_total title_le_trans)].
      intros a b. unfold title_le. now rewrite Z.leb_le.
    + apply isort_perm.
    + intros z.
      rewrite <- !(filter_ext _ _ (tied_title z)).
      apply isort_stable. apply title_le_trans.
  - split; [| split].
    + eapply StronglySorted_impl;
        [| apply (isort_sorted price_le price_le_total price_le_trans)].
      intros a b. unfold price_le. now rewrite Qle_bool_iff.
    + apply isort_perm.
    + intros z.
      rewrite <- !(filter_ext _ _ (tied_price_asc z)).
      apply isort_stable. apply price_le_trans.
  - split; [| split].
    + eapply StronglySorted_impl;
        [| apply (isort_sorted (fun a b => price_le b a))].
      * intros a b. unfold price_le. now rewrite Qle_bool_iff.
      * intros a b. destruct (price_le_total a b); auto.
      * intros a b c H1 H2. now apply price_le_trans with b.
    + apply isort_perm.
    + intros z.
      rewrite <- !(filter_ext _ _ (tied_price_desc z)).
      apply isort_stable. intros a b c H1 H2. now apply price_le_trans with b.
Qed.

(** The sort stage on products that have a title and a price.  For each
    of the three sort keys it returns a new array whose contents are the
    input in the key's order (prices non-decreasing for price-asc,
    non-increasing for price-desc, titles in collation order for
    name-asc), products with equal sort keys keep the relative order they
    had in the input, and the input array still holds what it held. *)
Theorem sort_stage_correct k st h l xs :
  sortBy st = sort_literal k -> h !! l = Some xs ->
  forallb well_formed xs = true ->
  exists out,
    sortProducts st (Some l) h = Ok (length h, h ++ [out]) /\
    StronglySorted (in_order k) out /\
    Permutation xs out /\
    (forall z, List.filter (same_key k z) out = List.filter (same_key k z) xs) /\
    (h ++ [out]) !! l = Some xs /\
    length h <> l.
Proof.
  intros Hk Hl Hwf.
  set (q := {| q_searchText := searchQuery st;
               q_category := filterCategory st; q_sortKey := k |}).
  assert (Hq : holds st q) by (now repeat split).
  pose proof (sortProducts_run st h l xs Hl) as R.
  rewrite (sort_list_pure st q xs Hq Hwf) in R.
  exists (sort_stage q xs). split; [exact R |].
  destruct (sort_stage_sorted q xs) as (H1 & H2 & H3).
  repeat split; try assumption.
  - now apply lookup_app_l_Some.
  - apply lookup_lt_Some in Hl. lia.
Qed.

End Collation.

End Pipeline.

(** *** The specification's scenario, with comparison by code units *)

Example scenario_smartphones_price_desc :
  exists scr,
    rbind (@render code_units (initial (Some 0)) [scenario])
          (@session code_units
             [PressCategory "smartphones"; PressSort PriceDesc]) = Ok scr /\
    store scr !! displayedProducts scr = Some [samsung; iphone].
Proof. eexists. split; reflexivity. Qed.

Example scenario_search_lip :
  exists scr,
    rbind (@render code_units (initial (Some 0)) [scenario])
          (@session code_units [ChangeText "lip"]) = Ok scr /\
    store scr !! displayedProducts scr = Some [lipstick].
Proof. eexists. split; reflexivity. Qed.

Lemma category_narrowing_witness :
  (forallb well_formed scenario = true ->
   exists l' h',
     @getProcessedProducts code_units smartphones_by_price [scenario]
     = Ok (l', h')) /\
  (forall l' h',
     @getProcessedProducts code_units smartphones_by_price [scenario]
     = Ok (l', h') ->
     exists out, h' !! l' = Some out /\
       Forall (fun p => category p = Some "smartphones") out).
Proof.
  apply (@category_narrowing code_units smartphones_by_price
           [scenario] 0 scenario).
  - reflexivity.
  - reflexivity.
  - discriminate.
Defined.

Lemma search_containment_witness :
  (forallb well_formed scenario = true ->
   exists l' h',
     @getProcessedProducts code_units (searching " Lip") [scenario]
     = Ok (l', h')) /\
  (forall l' h',
     @getProcessedProducts code_units (searching " Lip") [scenario]
     = Ok (l', h') ->
     exists out, h' !! l' = Some out /\
       Forall (title_contains (toLowerCase (trim " Lip"))) out).
Proof.
  apply (@search_containment code_units (searching " Lip")
           [scenario] 0 scenario).
  - reflexivity.
  - reflexivity.
  - discriminate.
Defined.

Lemma displayed_is_projection_witness :
  exists scr,
    rbind (@render code_units (initial (Some 0)) [scenario])
          (@session code_units
             [ChangeText "9 "; PressCategory "smartphones"; PressSort PriceDesc])
    = Ok scr /\
    store scr !! displayedProducts scr =
      Some (@project_as_typed code_units
              (fold_left update
                 [ChangeText "9 "; PressCategory "smartphones"; PressSort PriceDesc]
                 default_query) scenario) /\
    store scr !! 0 = Some scenario.
Proof.
  apply (@displayed_is_projection code_units scenario [scenario] 0).
  - reflexivity.
  - reflexivity.
Defined.

Lemma sort_stage_correct_witness :
  exists out,
    @sortProducts code_units smartphones_by_price (Some 0) [scenario]
    = Ok (1, [scenario] ++ [out]) /\
    StronglySorted (@in_order code_units PriceDesc) out /\
    Permutation scenario out /\
    (forall z, List.filter (@same_key code_units PriceDesc z) out =
               List.filter (@same_key code_units PriceDesc z) scenario) /\
    ([scenario] ++ [out]) !! 0 = Some scenario /\
    1 <> 0.
Proof.
  apply (@sort_stage_correct code_units code_units_consistent
           PriceDesc smartphones_by_price [scenario] 0 scenario).
  - reflexivity.
  - reflexivity.
  - reflexivity.
Defined.

(** C2, as the claim states it, fails: the specification's search stage
    matches the trimmed search text, the screen matches the text as typed.
    With "lip " in the search box (a trailing space) the specification's
    projection keeps "Red Lipstick"; the screen displays nothing. *)
Lemma displayed_differs_from_spec_projection :
  exists scr,
    rbind (@render code_units (initial (Some 0)) [scenario])
          (@session code_units [ChangeText "lip "]) = Ok scr /\
    store scr !! displayedProducts scr = Some [] /\
    @project_spec code_units
      (fold_left update [ChangeText "lip "] default_query) scenario
    = [lipstick].
Proof. eexists. repeat split; reflexivity. Qed.

(** C7 at a failing input: a product without a title makes the search
    stage throw as soon as a search text is present. *)
Theorem missing_title_search_throws :
  @getProcessedProducts code_units (searching "lip") [[lipstick; untitled]]
  = Throw (type_error "Cannot read properties of undefined (reading 'toLowerCase')").
Proof. reflexivity. Qed.

(** The sort by name throws as well, whatever the search text. *)
Example missing_title_sort_throws :
  @getProcessedProducts code_units (searching "") [[untitled; untitled]]
  = Throw (type_error "Cannot read properties of undefined (reading 'localeCompare')").
Proof. reflexivity. Qed.

(** A missing price does not throw, and it does not count as zero: the
    comparator's value is [NaN], which [sort] reads as a tie with every
    price. *)
Example missing_price_compares_as_NaN :
  price_asc unpriced lipstick = Ok NaN /\
  price_asc lipstick unpriced = Ok NaN /\
  is_positive NaN = false.
Proof. repeat split. Qed.

(** C4 at a failing input: the sort stage does not put every input list
    in order.  [sortProducts] compares prices with [a.price - b.price]
    and no guard, so a product without a price compares as [NaN], a tie,
    with every other product, whichever of the two is the first
    argument.  With 'price-asc' the products priced 549, not priced, and
    priced 12 come back in this order, 549 before 12.  The two products
    priced 12 and not priced come back as they are as well: there the
    comparator says tie in both directions, so a stable sort has to keep
    them, while the order by price, with a missing price as zero as in
    the hook's [(a.price || 0)], puts the product without a price
    first. *)
Theorem missing_price_leaves_the_list_unsorted :
  @sortProducts code_units (setSortBy "price-asc" (searching "")) (Some 0)
    [[iphone; unpriced; lipstick]]
  = Ok (1, [[iphone; unpriced; lipstick]; [iphone; unpriced; lipstick]]) /\
  ~ StronglySorted (@in_order code_units PriceAsc) [iphone; unpriced; lipstick] /\
  ~ @in_order code_units PriceAsc iphone lipstick /\
  @sortProducts code_units (setSortBy "price-asc" (searching "")) (Some 0)
    [[lipstick; unpriced]]
  = Ok (1, [[lipstick; unpriced]; [lipstick; unpriced]]) /\
  ~ @in_order code_units PriceAsc lipstick unpriced /\
  price_asc lipstick unpriced = Ok NaN /\
  price_asc unpriced lipstick = Ok NaN.
Proof.
  assert (H1 : ~ @in_order code_units PriceAsc iphone lipstick).
  { cbn. unfold Qle. cbn. lia. }
  assert (H2 : ~ @in_order code_units PriceAsc lipstick unpriced).
  { cbn. unfold Qle. cbn. lia. }
  repeat split; try assumption.
  intros Hs. apply StronglySorted_inv in Hs as [_ Hall].
  apply Forall_inv_tail, Forall_inv in Hall. exact (H1 Hall).
Qed.

End HomeScreenFacts.

(* ===================================================================== *)
(** ** The handlers of [useProducts] *)
(* ===================================================================== *)

Module UseProductsFacts.
Import JsString Catalog JsValue UseProducts.


Section Handlers.
Context `{collation : Collation}.

Lemma sort_by_title xs : sort_by by_title xs = Ok (isort title_le xs).
Proof.
  rewrite (sort_by_pure by_title (fun a b => Num (inject_Z
    (localeCompare (or_empty (title a)) (or_empty (title b)))))).
  - f_equal. apply isort_ext. intros x y _ _. apply not_positive_inject.
  - reflexivity.
Qed.

Lemma sort_by_price xs : sort_by by_price xs = Ok (isort price_le xs).
Proof.
  rewrite (sort_by_pure by_price (fun a b => Num
    (or_zero (price a) - or_zero (price b)))).
  - f_equal. apply isort_ext. intros x y _ _. apply not_positive_diff.
  - reflexivity.
Qed.

(** [handleSort] never throws: it stores a new array with [sorted_copy]
    of the old contents. *)
Lemma handleSort_run sortBy hk h xs :
  h !! filteredProducts hk = Some xs ->
  handleSort sortBy hk h =
    Ok (setFilteredProducts (length h) hk, h ++ [sorted_copy sortBy xs]).
Proof.
  intros Hl. unfold handleSort, sorted_copy, bind, array_spread, new_array.
  rewrite (contents_lookup _ _ _ Hl).
  destruct (is_string sortBy "title");
    [| destruct (is_string sortBy "price")]; unfold array_sort, ret.
  - rewrite (contents_lookup _ _ _ (lookup_snoc h xs)), sort_by_title.
    now rewrite insert_snoc.
  - rewrite (contents_lookup _ _ _ (lookup_snoc h xs)), sort_by_price.
    now rewrite insert_snoc.
  - reflexivity.
Qed.

Section Collation.
Context `{!Consistent collation}.


End Collation.

End Handlers.


(** The sort keys of the screen leave the order alone; 'price' sorts. *)
Example handleSort_examples :
  @handleSort code_units (VStr "price-desc") loaded [scenario]
    = Ok (setFilteredProducts 1 loaded, [scenario; scenario]) /\
  @handleSort code_units (VStr "price") loaded [scenario]
    = Ok (setFilteredProducts 1 loaded, [scenario; [lipstick; iphone; samsung]]).
Proof. split; reflexivity. Qed.

(** *** The hook's handlers beside the screen's pipeline

    The screen takes only [products] from this hook and runs its own
    pipeline; nothing in the application calls the three handlers.  They
    differ from the pipeline's stages, as the examples show. *)

(** [handleFilter] compares categories without regard to case. *)
Example handleFilter_ignores_case :
  exists hk h,
    handleFilter (VStr "BEAUTY") loaded [scenario] = Ok (hk, h) /\
    h !! filteredProducts hk = Some [lipstick].
Proof. eexists _, _. split; [vm_compute; reflexivity | reflexivity]. Qed.

(** [handleSearch] also looks into the description. *)
Example handleSearch_matches_description :
  exists hk h,
    handleSearch (VStr "no title") loaded [[lipstick; untitled]] = Ok (hk, h) /\
    h !! filteredProducts hk = Some [untitled].
Proof. eexists _, _. split; [vm_compute; reflexivity | reflexivity]. Qed.

(** Each of [handleFilter] and [handleSearch] starts again from
    [products]: a search after a category selection forgets the category. *)
Example handleSearch_forgets_category :
  exists hk h,
    bind (handleFilter (VStr "smartphones") loaded) (handleSearch (VStr "lip"))
      [scenario] = Ok (hk, h) /\
    h !! filteredProducts hk = Some [lipstick].
Proof. eexists _, _. split; [vm_compute; reflexivity | reflexivity]. Qed.

End UseProductsFacts.

(* ===================================================================== *)
(** ** The API client *)
(* ===================================================================== *)

Module ApiFacts.
Import JsString JsValue Api.

Lemma is_blank_empty_input (name : string) (v : jsval) :
  empty_input v -> is_blank name v = Ok true.
Proof.
  intros [-> | [-> | (s & -> & Hs)]]; try reflexivity.
  unfold is_blank. destruct s as [|c s]; [reflexivity |].
  cbn [truthy truthy_string negb string_method rbind]. now rewrite Hs.
Qed.

Lemma is_missing_empty_id (v : jsval) : empty_id v -> is_missing v = true.
Proof. now intros [-> | [-> | ->]]. Qed.

(** C8, as amended.  For a missing, [null], empty or blank search query or
    category, and for a missing, [null] or empty id, the call returns a
    promise that is already rejected with the validation error when the
    call returns, and no request is sent.  (The functions are async: the
    error rejects the promise, it is not thrown at the caller.) *)
Theorem validation_rejects_before_network
        (net : Request -> FetchOutcome) (f : Validating) (args : list jsval) :
  refused f (arg 0 args) -> rejected_on_return net f args.
Proof.
  destruct f; cbn [refused rejected_on_return]; intros H;
    unfold searchProducts, fetchProductsByCategory, fetchProductById,
           async_function.
  - rewrite !is_blank_empty_input by exact H. now split.
  - rewrite !is_blank_empty_input by exact H. now split.
  - rewrite is_missing_empty_id by exact H. now split.
Qed.

Lemma validation_rejects_before_network_witness :
  rejected_on_return silent_network SearchProducts [VStr "   "] /\
  rejected_on_return silent_network FetchProductsByCategory [VNull] /\
  rejected_on_return silent_network FetchProductById [].
Proof.
  split; [| split].
  - apply (validation_rejects_before_network silent_network SearchProducts).
    right. right. exists "   ". split; reflexivity.
  - apply (validation_rejects_before_network silent_network FetchProductsByCategory).
    right. left. reflexivity.
  - apply (validation_rejects_before_network silent_network FetchProductById).
    left. reflexivity.
Defined.

(** C8, as the claim states it, fails: with an empty argument none of the
    three calls throws at its caller; each returns a promise. *)
Lemma empty_input_is_not_thrown :
  ~ thrown_at_caller (searchProducts [VStr ""]) /\
  ~ thrown_at_caller (fetchProductsByCategory [VStr ""]) /\
  ~ thrown_at_caller (fetchProductById [VStr ""]).
Proof. repeat split; intros [e H]; discriminate H. Qed.

(** A blank id is not an empty id: the request is sent. *)
Example blank_id_is_requested :
  requests silent_network (fetchProductById [VStr " "]) =
    [{| url := "https://dummyjson.com/products/ "; signal := None |}].
Proof. reflexivity. Qed.

Example search_is_encoded :
  requests silent_network (searchProducts [VStr "red lipstick"]) =
    [{| url := "https://dummyjson.com/products/search?q=red%20lipstick";
        signal := None |}].
Proof. reflexivity. Qed.

Example product_not_found :
  outcome (fun _ => Responded {| status := 404; body := None |})
          (fetchProductById [VNum 7]) =
    Normal ([{| url := "https://dummyjson.com/products/7"; signal := None |}],
            Throw (error "Product with ID 7 not found")).
Proof. reflexivity. Qed.

(** A valid id sends one request, for that product, without a signal. *)
Lemma fetchProductById_requests net id args :
  arg 0 args = id -> is_missing id = false ->
  requests net (fetchProductById args) =
    [{| url := API_BASE_URL +:+ "/products/" +:+ to_string id; signal := None |}].
Proof.
  intros Hid Hm. unfold requests, fetchProductById, async_function.
  rewrite Hid, Hm. cbn [fetch await try_catch run].
  destruct (net _) as [e|r]; cbn; [reflexivity |].
  destruct (ok r); cbn.
  - unfold json. destruct (body r); reflexivity.
  - destruct (status r =? 404)%Z; reflexivity.
Qed.

(** Had the signal been handed on to [fetch], an aborted one would have
    stopped the request. *)
Example fetch_honours_an_aborted_signal :
  run (fun _ => found) (fetch (API_BASE_URL +:+ "/products/1") (Some true))
  = ([], Throw (MkError NAbortError "Aborted")).
Proof. reflexivity. Qed.

Example aborted_signal_still_fetches :
  outcome (fun _ => found) (fetchProductById [VNum 1; VSignal true]) =
    Normal ([{| url := "https://dummyjson.com/products/1"; signal := None |}],
            Ok essence_mascara).
Proof. reflexivity. Qed.

End ApiFacts.

(* ===================================================================== *)
(** ** The lifecycle of [useProductDetail] *)
(* ===================================================================== *)

Module UseProductDetailFacts.
Import JsString JsValue Api ApiFacts UseProductDetail.

Lemma cleanup_aborts_current hk i :
  S i = length (effects hk) -> is_aborted (cleanup hk) i.
Proof.
  intros Hi. unfold is_aborted, cleanup. cbn [effects with_effects].
  replace (length (effects hk) - 1) with i by lia.
  destruct (effects hk !! i) as [e|] eqn:E.
  - exists (abort e). rewrite list_lookup_alter_eq, E. now split.
  - apply lookup_ge_None in E. lia.
Qed.

Lemma cleanup_keeps_aborted hk i :
  is_aborted hk i -> is_aborted (cleanup hk) i.
Proof.
  intros (e & E & Ha). unfold is_aborted, cleanup. cbn [effects with_effects].
  destruct (decide (length (effects hk) - 1 = i)) as [->|Hne].
  - exists (abort e). rewrite list_lookup_alter_eq, E. now split.
  - exists e. now rewrite list_lookup_alter_ne.
Qed.

Lemma run_effect_keeps_aborted pid hk i :
  is_aborted hk i -> is_aborted (run_effect pid hk) i.
Proof.
  intros (e & E & Ha). exists e. split; [| exact Ha].
  unfold run_effect. cbn. now apply lookup_app_l_Some.
Qed.

Lemma resume_effects b r hk : effects (resume b r hk) = effects hk.
Proof. unfold resume. destruct r, b; reflexivity. Qed.

(** Once aborted, always aborted. *)
Lemma step_keeps_aborted hk ev i :
  is_aborted hk i -> is_aborted (step hk ev) i.
Proof.
  intros H. destruct ev as [pid | | j o]; cbn [step].
  - destruct (unmounted hk); [exact H |].
    destruct (last (effects hk)) as [e|];
      [| now apply run_effect_keeps_aborted].
    destruct (same_value _ _); [exact H |].
    now apply run_effect_keeps_aborted, cleanup_keeps_aborted.
  - destruct (unmounted hk); [exact H |].
    apply cleanup_keeps_aborted in H. exact H.
  - destruct (effects hk !! j) as [e|] eqn:Ej; [| exact H].
    destruct (resumed e); [exact H |].
    destruct H as (e0 & E0 & Ha).
    assert (Hins : forall e', aborted e' = aborted e ->
              exists e1, <[j := e']> (effects hk) !! i = Some e1 /\ aborted e1 = true).
    { intros e' He'. destruct (decide (j = i)) as [->|Hne].
      - exists e'. rewrite list_lookup_insert_eq by (now apply lookup_lt_Some in Ej).
        split; [reflexivity |]. rewrite He'. congruence.
      - exists e0. now rewrite list_lookup_insert_ne. }
    destruct (answer o (fetching e)) as [r|req k]; unfold is_aborted.
    + rewrite resume_effects. cbn [effects with_effects]. now apply Hins.
    + cbn [effects with_effects]. now apply Hins.
Qed.

Lemma run_events_keeps_aborted evs hk i :
  is_aborted hk i -> is_aborted (run_events hk evs) i.
Proof.
  revert hk. induction evs as [|ev evs IH]; intros hk H; [exact H |].
  cbn. apply IH. now apply step_keeps_aborted.
Qed.

(** The answer to an aborted run changes nothing that the hook returns. *)
Lemma settle_aborted_view hk i o :
  is_aborted hk i -> view (step hk (Settle i o)) = view hk.
Proof.
  intros (e & E & Ha). cbn [step]. rewrite E.
  destruct (resumed e); [reflexivity |].
  destruct (answer o (fetching e)) as [r|req k]; [| reflexivity].
  rewrite Ha. unfold resume. destruct r; reflexivity.
Qed.

Lemma cancel_aborts hk ev i :
  current hk i -> cancels hk ev -> is_aborted (step hk ev) i.
Proof.
  intros [Hm Hi] Hc. destruct ev as [pid | | j o]; cbn [step cancels] in *.
  - rewrite Hm. destruct Hc as (e & -> & ->).
    now apply run_effect_keeps_aborted, cleanup_aborts_current.
  - rewrite Hm. now apply (cleanup_aborts_current hk i).
  - contradiction.
Qed.

(** The cleanup leaves the promise of every run as it is. *)
Lemma cleanup_keeps_fetching hk i e :
  effects hk !! i = Some e ->
  exists e', effects (cleanup hk) !! i = Some e' /\ fetching e' = fetching e.
Proof.
  intros E. unfold cleanup. cbn [effects with_effects].
  destruct (decide (length (effects hk) - 1 = i)) as [->|Hne].
  - exists (abort e). rewrite list_lookup_alter_eq, E. now split.
  - exists e. now rewrite list_lookup_alter_ne.
Qed.

(** C6 (cancel before the fetch settles).  When the current run of the
    effect is cancelled, by the unmount or by a render with another
    product id, then whatever happens afterwards, the answer to that
    run's fetch, a product or an error, changes none of [product],
    [loading] and [error]. *)
Theorem cancelled_fetch_is_discarded hk i ev later o :
  current hk i -> cancels hk ev ->
  view (step (run_events (step hk ev) later) (Settle i o))
  = view (run_events (step hk ev) later).
Proof.
  intros Hcur Hc. apply settle_aborted_view, run_events_keeps_aborted.
  now apply cancel_aborts.
Qed.

Lemma cancelled_fetch_is_discarded_witness :
  view (step (run_events (step (step initial (Render (VNum 1))) (Render (VNum 2)))
                         [Settle 1 offline])
             (Settle 0 found))
  = view (run_events (step (step initial (Render (VNum 1))) (Render (VNum 2)))
                     [Settle 1 offline]).
Proof.
  apply (cancelled_fetch_is_discarded (step initial (Render (VNum 1))) 0
           (Render (VNum 2)) [Settle 1 offline] found).
  - split; reflexivity.
  - cbn. eexists. split; reflexivity.
Defined.

(** C5 at a failing input.  After product 1 has been fetched and the
    screen moves on to product 2, the hook is loading and still returns
    product 1; when the second fetch fails it returns the error together
    with product 1.  Neither is one of the three combinations. *)
Theorem stale_product_beside_loading_and_error :
  view (run_events initial second_product) = (Some essence_mascara, true, None) /\
  request_state_ok (view (run_events initial second_product)) = false /\
  view (run_events initial (second_product ++ [Settle 1 offline]))
    = (Some essence_mascara, false, Some "Network request failed") /\
  request_state_ok (view (run_events initial (second_product ++ [Settle 1 offline])))
    = false.
Proof. repeat split. Qed.

(** Up to the first change of the product id the three combinations do
    hold. *)
Example first_fetch_states :
  request_state_ok (view (run_events initial [Render (VNum 1)])) = true /\
  request_state_ok (view (run_events initial [Render (VNum 1); Settle 0 found])) = true /\
  request_state_ok (view (run_events initial [Render (VNum 1); Settle 0 offline])) = true.
Proof. repeat split. Qed.

(** C9.  [fetchProductById] reads its first argument only.  Two calls
    with the same id and different second arguments are the same
    computation: against any network they send the same requests and
    settle alike.  With a signal that is already aborted the request for
    the product is sent all the same, and it carries no signal.  In the
    hook the cleanup leaves the promise of every run as it is: aborting
    stops no request, it only keeps [fetchProduct] from setting state. *)
Theorem abort_signal_never_reaches_fetch
        (net : Request -> FetchOutcome) (id s1 s2 : jsval) :
  fetchProductById [id; s1] = fetchProductById [id; s2] /\
  outcome net (fetchProductById [id; s1]) = outcome net (fetchProductById [id; s2]) /\
  (is_missing id = false ->
   requests net (fetchProductById [id; VSignal true]) =
     [{| url := API_BASE_URL +:+ "/products/" +:+ to_string id; signal := None |}]) /\
  (forall hk i e, effects hk !! i = Some e ->
     exists e', effects (cleanup hk) !! i = Some e' /\ fetching e' = fetching e).
Proof.
  repeat split.
  - intros Hm. now apply fetchProductById_requests.
  - apply cleanup_keeps_fetching.
Qed.

End UseProductDetailFacts.

(* ===================================================================== *)
(** ** Strings: case and white space *)
(* ===================================================================== *)

Module JsStringLaws.
Import JsString JsStringFacts.

Lemma is_white_space_lower (c : ascii) :
  is_white_space (lower_char c) = is_white_space c.
Proof. destruct c as [[] [] [] [] [] [] [] []]; reflexivity. Qed.

Lemma lower_char_idem (c : ascii) : lower_char (lower_char c) = lower_char c.
Proof. destruct c as [[] [] [] [] [] [] [] []]; reflexivity. Qed.

Lemma toLowerCase_idem (s : string) :
  toLowerCase (toLowerCase s) = toLowerCase s.
Proof.
  induction s as [|c s IH]; [reflexivity|].
  cbn. now rewrite lower_char_idem, IH.
Qed.

Lemma truthy_lower (s : string) :
  truthy_string (toLowerCase s) = truthy_string s.
Proof. now destruct s. Qed.

Lemma blank_lower (s : string) : blank (toLowerCase s) = blank s.
Proof.
  induction s as [|c s IH]; [reflexivity|].
  cbn. now rewrite is_white_space_lower, IH.
Qed.

Lemma blank_app (a b : string) : blank (a +:+ b) = blank a && blank b.
Proof.
  induction a as [|c a IH]; [reflexivity|].
  cbn. rewrite IH. now rewrite andb_assoc.
Qed.

Lemma trimEnd_truthy (c : ascii) (s : string) :
  is_white_space c = false -> truthy_string (trimEnd (String c s)) = true.
Proof.
  intros Hc. cbn. destruct (trimEnd s); [now rewrite Hc | reflexivity].
Qed.

(** [trim] leaves the empty string exactly of the strings made of white
    space. *)
Lemma trim_blank (s : string) : truthy_string (trim s) = negb (blank s).
Proof.
  unfold trim. induction s as [|c s IH]; [reflexivity|].
  cbn [trimStart blank]. destruct (is_white_space c) eqn:Hc.
  - exact IH.
  - now rewrite trimEnd_truthy.
Qed.

Lemma trim_eqb_blank (s : string) : String.eqb (trim s) "" = blank s.
Proof.
  pose proof (trim_blank s) as H. destruct (trim s); cbn in *.
  - now destruct (blank s).
  - now destruct (blank s).
Qed.

Lemma trim_lower_truthy (s t : string) :
  toLowerCase s = toLowerCase t ->
  truthy_string (trim s) = truthy_string (trim t).
Proof.
  intros H. rewrite !trim_blank, <- (blank_lower s), <- (blank_lower t).
  now rewrite H.
Qed.

(** What contains a string contains each of its infixes. *)
Lemma includes_infix (s t u : string) :
  infix_of u t -> includes s t = true -> includes s u = true.
Proof.
  intros Hu Ht. apply includes_spec. apply includes_spec in Ht.
  now apply (infix_of_trans u t s).
Qed.

Lemma infix_of_prefix (a b : string) : infix_of a (a +:+ b).
Proof. exists "", b. reflexivity. Qed.

End JsStringLaws.

(* ===================================================================== *)
(** ** Sorting and filtering: sub-collections *)
(* ===================================================================== *)

Section SubCollections.
Context {A : Type}.

Lemma filter_by_sublist (p : A -> result bool) (l out : list A) :
  filter_by p l = Ok out -> sublist out l.
Proof.
  revert out. induction l as [|x l IH]; intros out H; cbn in H.
  - injection H as <-. constructor.
  - destruct (p x) as [keep|e]; [|discriminate]. cbn in H.
    destruct (filter_by p l) as [r|e]; [|discriminate]. cbn in H.
    injection H as <-. specialize (IH r eq_refl).
    destruct keep; [now apply sublist_skip | now apply sublist_cons].
Qed.

Lemma filter_sublist_impl (f g : A -> bool) (l : list A) :
  (forall a, In a l -> f a = true -> g a = true) ->
  sublist (List.filter f l) (List.filter g l).
Proof.
  induction l as [|x l IH]; intros H; cbn; [constructor|].
  assert (IH' : sublist (List.filter f l) (List.filter g l)).
  { apply IH. intros a Ha. apply H. now right. }
  destruct (f x) eqn:Hf.
  - rewrite (H x (or_introl eq_refl) Hf). now apply sublist_skip.
  - destruct (g x); [now apply sublist_cons | exact IH'].
Qed.

Lemma filter_sublist_all (f : A -> bool) (l : list A) :
  sublist (List.filter f l) l.
Proof.
  induction l as [|x l IH]; cbn; [constructor|].
  destruct (f x); [now apply sublist_skip | now apply sublist_cons].
Qed.

(** A sorted list is what the sort returns for it. *)
Lemma isort_sorted_id (before : A -> A -> bool) (l : list A) :
  StronglySorted (fun a b => before a b = true) l -> isort before l = l.
Proof.
  induction 1 as [|x l Hl IH Hx]; [reflexivity|].
  cbn. rewrite IH. destruct l as [|y l']; [reflexivity|].
  cbn. inversion Hx as [|? ? Hxy _]; subst. now rewrite Hxy.
Qed.

End SubCollections.

(* ===================================================================== *)
(** ** src/screens/HomeScreen.js: more about the displayed list *)
(* ===================================================================== *)

Module HomeScreenLaws.
Import JsString JsStringFacts JsStringLaws Catalog HomeScreen HomeScreenFacts.

Section Pipeline.
Context `{collation : Collation}.

Lemma category_list_sublist st xs out :
  category_list st xs = Ok out -> sublist out xs.
Proof.
  unfold category_list. destruct (String.eqb _ _).
  - now intros [= <-].
  - apply filter_by_sublist.
Qed.

Lemma search_list_sublist st xs out :
  search_list st xs = Ok out -> sublist out xs.
Proof.
  unfold search_list. destruct (negb _).
  - now intros [= <-].
  - apply filter_by_sublist.
Qed.

Lemma project_list_submseteq st raw out :
  project_list st raw = Ok out -> out ⊆+ raw.
Proof.
  unfold project_list.
  destruct (category_list st raw) as [ys|] eqn:Hc; cbn [rbind]; [|discriminate].
  destruct (search_list st ys) as [zs|] eqn:Hs; cbn [rbind]; [|discriminate].
  intros Hsort. apply sort_list_perm in Hsort. rewrite <- Hsort.
  apply sublist_submseteq.
  transitivity ys; eauto using category_list_sublist, search_list_sublist.
Qed.

Lemma runs_as_bind (m : M Product loc) (k : loc -> M Product loc) h xs r :
  runs_as m h (Ok xs) ->
  (forall l1 h1, h1 !! l1 = Some xs -> runs_as (k l1) h1 r) ->
  runs_as (bind m k) h r.
Proof.
  intros (l1 & h1 & Hm & Hl & Hext) Hk. specialize (Hk l1 h1 Hl).
  unfold bind. destruct r as [out|e]; cbn in *.
  - destruct Hk as (l2 & h2 & Hk & Hl2 & Hext2).
    exists l2, h2. rewrite Hm. repeat split; try assumption.
    now apply (extends_trans h h1 h2).
  - now rewrite Hm.
Qed.

Lemma filter_comm {A} (f g : A -> bool) (l : list A) :
  List.filter f (List.filter g l) = List.filter g (List.filter f l).
Proof.
  induction l as [|x l IH]; [reflexivity|]. cbn.
  destruct (g x) eqn:Hg, (f x) eqn:Hf; cbn; rewrite ?Hg, ?Hf, IH; reflexivity.
Qed.

Lemma forallb_perm (xs ys : list Product) :
  Permutation xs ys -> forallb well_formed xs = true ->
  forallb well_formed ys = true.
Proof.
  intros Hp H. apply forallb_forall. intros a Ha.
  rewrite forallb_forall in H. apply H.
  now apply (Permutation_in a (Permutation_sym Hp)).
Qed.

(** X1.  Whatever the products are, with or without titles and prices:
    when [getProcessedProducts] returns, the displayed list is drawn from
    the [products] array.  Each product appears in it at most as often as
    in [products] (nothing is invented or shown twice), and the [products]
    array still has the contents it had. *)
Theorem displayed_products_come_from_products st h l raw l' h' :
  products st = Some l -> h !! l = Some raw ->
  getProcessedProducts st h = Ok (l', h') ->
  exists out, h' !! l' = Some out /\ out ⊆+ raw /\ h' !! l = Some raw.
Proof.
  intros Hp Hl Hrun.
  destruct (getProcessedProducts_inv st h l raw l' h' Hp Hl Hrun)
    as (out & Hout & Hl' & Hext & _).
  exists out. repeat split; [assumption | | ].
  - now apply (project_list_submseteq st).
  - now apply (extends_lookup h h').
Qed.

(** X2.  With the category "all" and a search text that is empty or
    white space only, no product is left out: the displayed list is a
    permutation of the [products] array. *)
Theorem unfiltered_list_shows_every_product st h l raw l' h' :
  products st = Some l -> h !! l = Some raw ->
  filterCategory st = "all" -> trim (searchQuery st) = "" ->
  getProcessedProducts st h = Ok (l', h') ->
  exists out, h' !! l' = Some out /\ Permutation raw out.
Proof.
  intros Hp Hl Hall Hblank Hrun.
  destruct (getProcessedProducts_inv st h l raw l' h' Hp Hl Hrun)
    as (out & Hout & Hl' & _).
  exists out. split; [assumption|].
  unfold project_list, category_list, search_list in Hout.
  rewrite Hall, Hblank in Hout. cbn in Hout.
  now apply (sort_list_perm st).
Qed.

(** X3.  The category is tested before the title is read.  With a
    category selected, products of other categories are never looked at
    by the search and the sort: if the products of the selected category
    have a title and a price, the pipeline returns, whatever is missing in
    the others. *)
Theorem category_view_ignores_malformed_others st h l raw :
  products st = Some l -> h !! l = Some raw ->
  filterCategory st <> "all" ->
  (forall p, In p raw -> category p = Some (filterCategory st) ->
             well_formed p = true) ->
  exists l' h', getProcessedProducts st h = Ok (l', h').
Proof.
  intros Hp Hl Hcat Hwf.
  pose proof (getProcessedProducts_run st h l raw Hp Hl) as Hrun.
  assert (Hproj : exists out, project_list st raw = Ok out).
  { unfold project_list. rewrite category_list_filter.
    destruct (String.eqb_spec (filterCategory st) "all") as [E|_];
      [contradiction|]. cbn [rbind].
    set (ys := List.filter _ raw).
    assert (Hys : forallb well_formed ys = true).
    { apply forallb_forall. intros p Hin. apply filter_In in Hin as [Hin Hc].
      apply Hwf; [assumption|].
      unfold strict_eq_string in Hc. destruct (category p) as [c|]; [|discriminate].
      apply String.eqb_eq in Hc. now subst. }
    rewrite (search_list_filter st ys Hys). cbn [rbind].
    apply sort_list_total.
    destruct (truthy_string _); [now apply forallb_filter | assumption]. }
  destruct Hproj as (out & Hout). rewrite Hout in Hrun.
  destruct Hrun as (l' & h' & Hrun & _). now exists l', h'.
Qed.

(** X4.  The category filter and the search filter can be applied in
    either order: on products with a title and a price both orders return
    an array with the same products in the same order. *)
Theorem filter_stages_commute st h l raw :
  h !! l = Some raw -> forallb well_formed raw = true ->
  exists out,
    runs_as (bind (filterByCategory st (Some l))
                  (fun byCategory => filterProducts st (Some byCategory)))
            h (Ok out) /\
    runs_as (bind (filterProducts st (Some l))
                  (fun bySearch => filterByCategory st (Some bySearch)))
            h (Ok out).
Proof.
  intros Hl Hwf.
  set (c := fun p => strict_eq_string (category p) (filterCategory st)).
  set (s := fun p => includes (toLowerCase (or_empty (title p)))
                              (toLowerCase (searchQuery st))).
  set (ys := if String.eqb (filterCategory st) "all" then raw
             else List.filter c raw).
  set (zs := if truthy_string (trim (searchQuery st))
             then List.filter s raw else raw).
  assert (Hys : forallb well_formed ys = true).
  { subst ys. destruct (String.eqb _ _); [assumption | now apply forallb_filter]. }
  exists (if truthy_string (trim (searchQuery st)) then List.filter s ys else ys).
  split.
  - apply (runs_as_bind _ _ h ys).
    + pose proof (filterByCategory_runs st h l raw Hl) as H.
      now rewrite category_list_filter in H.
    + intros l1 h1 Hl1.
      pose proof (filterProducts_runs st h1 l1 ys Hl1) as H.
      now rewrite (search_list_filter st ys Hys) in H.
  - apply (runs_as_bind _ _ h zs).
    + pose proof (filterProducts_runs st h l raw Hl) as H.
      now rewrite (search_list_filter st raw Hwf) in H.
    + intros l1 h1 Hl1.
      pose proof (filterByCategory_runs st h1 l1 zs Hl1) as H.
      rewrite category_list_filter in H.
      replace (if truthy_string (trim (searchQuery st))
               then List.filter s ys else ys)
        with (if String.eqb (filterCategory st) "all" then zs
              else List.filter c zs); [exact H|].
      subst ys zs.
      destruct (String.eqb _ _), (truthy_string _); try reflexivity.
      apply filter_comm.
Qed.

(** X5.  The search does not depend on the case of the search text: two
    texts with the same lower-cased form give the same run of the
    pipeline, hence the same displayed list. *)
Theorem search_ignores_case_of_text st text1 text2 h :
  toLowerCase text1 = toLowerCase text2 ->
  getProcessedProducts (setSearchQuery text1 st) h
  = getProcessedProducts (setSearchQuery text2 st) h.
Proof.
  intros Hlow.
  unfold getProcessedProducts, filterProducts, filterByCategory, sortProducts,
    search_callback, category_callback.
  cbn [searchQuery sortBy filterCategory products setSearchQuery].
  rewrite (trim_lower_truthy text1 text2 Hlow), Hlow. reflexivity.
Qed.

(** X6.  For titles and search texts made of code units U+0000..U+00FF
    (the strings of this development, on which [toLowerCase] maps each
    code unit on its own): typing more characters after a search text can
    only remove products from the displayed list.  Every product
    displayed for the longer text is displayed for the shorter one. *)
Theorem typing_more_narrows st text more h l raw :
  products st = Some l -> h !! l = Some raw ->
  forallb well_formed raw = true ->
  exists l1 h1 out1 l2 h2 out2,
    getProcessedProducts (setSearchQuery text st) h = Ok (l1, h1) /\
    h1 !! l1 = Some out1 /\
    getProcessedProducts (setSearchQuery (text +:+ more) st) h = Ok (l2, h2) /\
    h2 !! l2 = Some out2 /\
    out2 ⊆+ out1.
Proof.
  intros Hp Hl Hwf.
  set (st1 := setSearchQuery text st).
  set (st2 := setSearchQuery (text +:+ more) st).
  pose proof (getProcessedProducts_run st1 h l raw Hp Hl) as R1.
  pose proof (getProcessedProducts_run st2 h l raw Hp Hl) as R2.
  destruct (project_list_total st1 raw Hwf) as (out1 & P1).
  destruct (project_list_total st2 raw Hwf) as (out2 & P2).
  rewrite P1 in R1. rewrite P2 in R2.
  destruct R1 as (l1 & h1 & R1 & L1 & _). destruct R2 as (l2 & h2 & R2 & L2 & _).
  exists l1, h1, out1, l2, h2, out2. repeat split; try assumption.
  unfold project_list in P1, P2.
  rewrite category_list_filter in P1, P2. cbn [rbind] in P1, P2.
  change (filterCategory st2) with (filterCategory st1) in P2.
  set (ys := if String.eqb (filterCategory st1) "all" then raw else _) in P1, P2.
  assert (Hys : forallb well_formed ys = true).
  { subst ys. destruct (String.eqb _ _); [assumption | now apply forallb_filter]. }
  rewrite (search_list_filter st1 ys Hys) in P1.
  rewrite (search_list_filter st2 ys Hys) in P2. cbn [rbind] in P1, P2.
  apply sort_list_perm in P1, P2. rewrite <- P1, <- P2.
  apply sublist_submseteq.
  cbn [searchQuery st1 st2 setSearchQuery].
  rewrite !trim_blank, blank_app.
  destruct (blank text) eqn:Hb; cbn [negb andb].
  - destruct (negb (blank more)); [apply filter_sublist_all | reflexivity].
  - apply filter_sublist_impl. intros a _.
    apply includes_infix. rewrite toLowerCase_app. apply infix_of_prefix.
Qed.

Section Collation.
Context `{!Consistent collation}.

Lemma sort_list_idem st xs out :
  forallb well_formed xs = true ->
  sort_list st xs = Ok out -> sort_list st out = Ok out.
Proof.
  intros Hwf Hsort.
  assert (Hout : forallb well_formed out = true).
  { apply (forallb_perm xs); [now apply (sort_list_perm st) | assumption]. }
  destruct (String.eqb_spec (sortBy st) "name-asc") as [E1|N1].
  { rewrite (sort_list_name st xs E1 Hwf) in Hsort. injection Hsort as <-.
    rewrite (sort_list_name st _ E1 Hout). f_equal. apply isort_sorted_id.
    apply isort_sorted; [apply title_le_total | apply title_le_trans]. }
  destruct (String.eqb_spec (sortBy st) "price-asc") as [E2|N2].
  { rewrite (sort_list_price_asc st xs E2 Hwf) in Hsort. injection Hsort as <-.
    rewrite (sort_list_price_asc st _ E2 Hout). f_equal. apply isort_sorted_id.
    apply isort_sorted; [apply price_le_total | apply price_le_trans]. }
  destruct (String.eqb_spec (sortBy st) "price-desc") as [E3|N3].
  { rewrite (sort_list_price_desc st xs E3 Hwf) in Hsort. injection Hsort as <-.
    rewrite (sort_list_price_desc st _ E3 Hout). f_equal. apply isort_sorted_id.
    apply isort_sorted.
    - intros a b. destruct (price_le_total a b); auto.
    - intros a b c Hab Hbc. now apply (price_le_trans c b a). }
  unfold sort_list in *.
  apply String.eqb_neq in N1, N2, N3. rewrite N1, N2, N3 in *.
  now injection Hsort as <-.
Qed.

(** X7.  Sorting is idempotent: [sortProducts] applied to the array it
    has returned gives a new array with the same products in the same
    order (for products with a title and a price, and a consistent
    collation). *)
Theorem sorting_again_changes_nothing st h l xs :
  h !! l = Some xs -> forallb well_formed xs = true ->
  exists out,
    sortProducts st (Some l) h = Ok (length h, h ++ [out]) /\
    sortProducts st (Some (length h)) (h ++ [out])
    = Ok (length (h ++ [out]), (h ++ [out]) ++ [out]).
Proof.
  intros Hl Hwf.
  destruct (sort_list_total st xs Hwf) as (out & Hsort).
  exists out.
  pose proof (sortProducts_run st h l xs Hl) as R1. rewrite Hsort in R1.
  split; [exact R1|].
  pose proof (sortProducts_run st (h ++ [out]) (length h) out (lookup_snoc h out))
    as R2.
  now rewrite (sort_list_idem st xs out Hwf Hsort) in R2.
Qed.

End Collation.
End Pipeline.

(** X8.  After a scroll event with a finite offset the scroll-to-top
    button is shown exactly when that offset is greater than 300, whatever
    the earlier events were; an offset that is not a number leaves the
    button as it was. *)
Theorem scroll_button_follows_the_offset (earlier : list jsnum) (y : Q) :
  scrolled (earlier ++ [Num y]) = js_gt (Num y) 300 /\
  scrolled (earlier ++ [NaN]) = scrolled earlier.
Proof.
  unfold scrolled. rewrite !fold_left_app. cbn [fold_left].
  set (shown := fold_left _ earlier false).
  unfold handleScroll, js_gt, js_le. split.
  - destruct (y ?= 300)%Q, shown; reflexivity.
  - now destruct shown.
Qed.

Lemma displayed_products_come_from_products_witness :
  exists out,
    [scenario; [iphone; samsung]; [samsung; iphone]] !! 2 = Some out /\
    out ⊆+ scenario /\
    [scenario; [iphone; samsung]; [samsung; iphone]] !! 0 = Some scenario.
Proof.
  apply (@displayed_products_come_from_products code_units
           smartphones_by_price [scenario] 0 scenario 2
           [scenario; [iphone; samsung]; [samsung; iphone]]);
    reflexivity.
Defined.

Lemma unfiltered_list_shows_every_product_witness :
  exists out,
    [scenario; [lipstick; samsung; iphone]] !! 1 = Some out /\
    Permutation scenario out.
Proof.
  apply (@unfiltered_list_shows_every_product code_units
           (searching "  ") [scenario] 0 scenario 1
           [scenario; [lipstick; samsung; iphone]]);
    reflexivity.
Defined.

Lemma category_view_ignores_malformed_others_witness :
  exists l' h',
    @getProcessedProducts code_units smartphones_by_price
      [[iphone; untitled; unpriced; samsung]] = Ok (l', h').
Proof.
  apply (@category_view_ignores_malformed_others code_units
           smartphones_by_price [[iphone; untitled; unpriced; samsung]] 0
           [iphone; untitled; unpriced; samsung]);
    [reflexivity | reflexivity | discriminate |].
  intros p [<-|[<-|[<-|[<-|[]]]]] Hc; try reflexivity; discriminate Hc.
Defined.

Lemma filter_stages_commute_witness :
  exists out,
    runs_as (bind (filterByCategory (setSearchQuery "9" smartphones_by_price) (Some 0))
                  (fun byCategory =>
                     filterProducts (setSearchQuery "9" smartphones_by_price)
                                    (Some byCategory)))
            [scenario] (Ok out) /\
    runs_as (bind (filterProducts (setSearchQuery "9" smartphones_by_price) (Some 0))
                  (fun bySearch =>
                     filterByCategory (setSearchQuery "9" smartphones_by_price)
                                      (Some bySearch)))
            [scenario] (Ok out).
Proof.
  apply (filter_stages_commute (setSearchQuery "9" smartphones_by_price)
           [scenario] 0 scenario); reflexivity.
Defined.

Lemma search_ignores_case_of_text_witness :
  @getProcessedProducts code_units (setSearchQuery "LIP" (searching "")) [scenario]
  = @getProcessedProducts code_units (setSearchQuery "lip" (searching "")) [scenario].
Proof.
  apply (@search_ignores_case_of_text code_units (searching "") "LIP" "lip"
           [scenario]).
  reflexivity.
Defined.

Lemma typing_more_narrows_witness :
  exists l1 h1 out1 l2 h2 out2,
    @getProcessedProducts code_units (setSearchQuery "s" (searching "")) [scenario]
      = Ok (l1, h1) /\
    h1 !! l1 = Some out1 /\
    @getProcessedProducts code_units
      (setSearchQuery ("s" +:+ "a") (searching "")) [scenario] = Ok (l2, h2) /\
    h2 !! l2 = Some out2 /\
    out2 ⊆+ out1.
Proof.
  apply (@typing_more_narrows code_units (searching "") "s" "a" [scenario] 0
           scenario); reflexivity.
Defined.

Lemma sorting_again_changes_nothing_witness :
  exists out,
    @sortProducts code_units smartphones_by_price (Some 0) [scenario]
      = Ok (1, [scenario] ++ [out]) /\
    @sortProducts code_units smartphones_by_price (Some 1) ([scenario] ++ [out])
      = Ok (length ([scenario] ++ [out]), ([scenario] ++ [out]) ++ [out]).
Proof.
  apply (@sorting_again_changes_nothing code_units code_units_consistent
           smartphones_by_price [scenario] 0 scenario); reflexivity.
Defined.

End HomeScreenLaws.

(* ===================================================================== *)
(** ** src/hooks/useProducts.js: the handlers in sequence *)
(* ===================================================================== *)

Module UseProductsLaws.
Import JsString JsStringFacts JsStringLaws Catalog JsValue.
Import UseProducts UseProductsFacts.

Section Handlers.
Context `{collation : Collation}.
Implicit Types (hk : Hook) (h : list (list Product)).

Lemma handleSearch_run (query : string) hk h raw :
  h !! products hk = Some raw ->
  handleSearch (VStr query) hk h =
    if blank query then Ok (setFilteredProducts (products hk) hk, h)
    else Ok (setFilteredProducts (length h) hk,
             h ++ [List.filter (matches_search query) raw]).
Proof.
  intros Hraw. unfold handleSearch. rewrite trim_blank, negb_involutive.
  destruct (blank query); [reflexivity|].
  unfold bind, array_filter. rewrite (contents_lookup h _ raw Hraw).
  rewrite (filter_by_pure _ (matches_search query)); [reflexivity|].
  reflexivity.
Qed.

Lemma handleFilter_run c hk h raw :
  h !! products hk = Some raw ->
  handleFilter (VStr c) hk h =
    if blank c || String.eqb (toLowerCase c) "all"
    then Ok (setFilteredProducts (products hk) hk, h)
    else Ok (setFilteredProducts (length h) hk,
             h ++ [List.filter (in_category c) raw]).
Proof.
  intros Hraw. unfold handleFilter. cbn [truthy].
  destruct c as [|a c]; [reflexivity|]. cbn [truthy_string negb].
  rewrite trim_eqb_blank.
  destruct (blank (String a c) || String.eqb (toLowerCase (String a c)) "all");
    [reflexivity|].
  unfold bind, array_filter. rewrite (contents_lookup h _ raw Hraw).
  rewrite (filter_by_pure _ (in_category (String a c))); reflexivity.
Qed.

Lemma handleFilter_falsy v hk h :
  truthy v = false ->
  handleFilter v hk h = Ok (setFilteredProducts (products hk) hk, h).
Proof. intros Hv. unfold handleFilter. now rewrite Hv. Qed.

Lemma sorted_copy_perm sortBy (xs : list Product) :
  Permutation xs (sorted_copy sortBy xs).
Proof.
  unfold sorted_copy.
  destruct (is_string sortBy "title"); [apply isort_perm|].
  destruct (is_string sortBy "price"); [apply isort_perm | reflexivity].
Qed.

(** One call: what it keeps, and what it leaves in [filteredProducts]. *)
Lemma call_inv c hk h raw xs hk' h' :
  h !! products hk = Some raw -> h !! filteredProducts hk = Some xs ->
  call c hk h = Ok (hk', h') ->
  products hk' = products hk /\ loading hk' = loading hk /\
  error hk' = error hk /\ extends h h' /\
  exists ys, h' !! filteredProducts hk' = Some ys /\ (xs ⊆+ raw -> ys ⊆+ raw).
Proof.
  intros Hraw Hxs Hcall. destruct c as [query|sortBy|category]; cbn [call] in Hcall.
  - destruct query as [| |b|z|query|s]; try discriminate Hcall.
    rewrite (handleSearch_run query hk h raw Hraw) in Hcall.
    destruct (blank query); injection Hcall as <- <-; cbn.
    + repeat split; [apply extends_refl|]. exists raw. now split.
    + repeat split; [apply extends_snoc|].
      exists (List.filter (matches_search query) raw).
      split; [apply lookup_snoc|].
      intros _. apply sublist_submseteq, filter_sublist_all.
  - rewrite (handleSort_run sortBy hk h xs Hxs) in Hcall.
    injection Hcall as <- <-; cbn.
    repeat split; [apply extends_snoc|].
    exists (sorted_copy sortBy xs). split; [apply lookup_snoc|].
    intros Hsub. now rewrite <- (sorted_copy_perm sortBy xs).
  - destruct (truthy category) eqn:Ht.
    + destruct category as [| |b|z|c|s]; try discriminate Ht;
        try (unfold handleFilter in Hcall; cbn [truthy] in Ht, Hcall;
             rewrite ?Ht in Hcall; discriminate Hcall).
      rewrite (handleFilter_run c hk h raw Hraw) in Hcall.
      destruct (blank c || String.eqb (toLowerCase c) "all");
        injection Hcall as <- <-; cbn.
      * repeat split; [apply extends_refl|]. exists raw. now split.
      * repeat split; [apply extends_snoc|].
        exists (List.filter (in_category c) raw).
        split; [apply lookup_snoc|].
        intros _. apply sublist_submseteq, filter_sublist_all.
    + rewrite (handleFilter_falsy category hk h Ht) in Hcall.
      injection Hcall as <- <-; cbn.
      repeat split; [apply extends_refl|]. exists raw. now split.
Qed.

Lemma call_returns c hk h raw xs :
  h !! products hk = Some raw -> h !! filteredProducts hk = Some xs ->
  expected_argument c = true ->
  exists hk' h', call c hk h = Ok (hk', h').
Proof.
  intros Hraw Hxs Hc. destruct c as [query|sortBy|category]; cbn [call].
  - destruct query as [| |b|z|query|s]; try discriminate Hc.
    rewrite (handleSearch_run query hk h raw Hraw).
    destruct (blank query); eauto.
  - rewrite (handleSort_run sortBy hk h xs Hxs). eauto.
  - destruct category as [| |b|z|c|s]; cbn in Hc;
      try (rewrite handleFilter_falsy; [eauto | now apply negb_true_iff]).
    rewrite (handleFilter_run c hk h raw Hraw).
    destruct (blank c || String.eqb (toLowerCase c) "all"); eauto.
Qed.

Lemma calls_inv cs : forall hk h raw xs hk' h',
  h !! products hk = Some raw -> h !! filteredProducts hk = Some xs ->
  calls cs hk h = Ok (hk', h') ->
  products hk' = products hk /\ loading hk' = loading hk /\
  error hk' = error hk /\ extends h h' /\
  exists ys, h' !! filteredProducts hk' = Some ys /\ (xs ⊆+ raw -> ys ⊆+ raw).
Proof.
  induction cs as [|c cs IH]; intros hk h raw xs hk' h' Hraw Hxs Hrun.
  - cbn in Hrun. injection Hrun as <- <-.
    repeat split; [apply extends_refl|]. now exists xs.
  - cbn [calls] in Hrun. unfold bind in Hrun.
    destruct (call c hk h) as [[hk1 h1]|e] eqn:Hc; [|discriminate].
    destruct (call_inv c hk h raw xs hk1 h1 Hraw Hxs Hc)
      as (Hp & Hlo & He & Hext & ys & Hys & Hsub).
    assert (Hraw1 : h1 !! products hk1 = Some raw).
    { rewrite Hp. now apply (extends_lookup h h1). }
    destruct (IH hk1 h1 raw ys hk' h' Hraw1 Hys Hrun)
      as (Hp' & Hlo' & He' & Hext' & zs & Hzs & Hsub').
    repeat split; try congruence.
    + now apply (extends_trans h h1 h').
    + exists zs. split; [assumption|]. auto.
Qed.

Lemma calls_return cs : forall hk h raw xs,
  h !! products hk = Some raw -> h !! filteredProducts hk = Some xs ->
  forallb expected_argument cs = true ->
  exists hk' h', calls cs hk h = Ok (hk', h').
Proof.
  induction cs as [|c cs IH]; intros hk h raw xs Hraw Hxs Hcs.
  - cbn. eauto.
  - cbn in Hcs. apply andb_true_iff in Hcs as [Hc Hcs].
    destruct (call_returns c hk h raw xs Hraw Hxs Hc) as (hk1 & h1 & Hcall).
    destruct (call_inv c hk h raw xs hk1 h1 Hraw Hxs Hcall)
      as (Hp & _ & _ & Hext & ys & Hys & _).
    assert (Hraw1 : h1 !! products hk1 = Some raw).
    { rewrite Hp. now apply (extends_lookup h h1). }
    destruct (IH hk1 h1 raw ys Hraw1 Hys Hcs) as (hk' & h' & Hrun).
    exists hk', h'. cbn [calls]. unfold bind. now rewrite Hcall.
Qed.

(** X9.  No call of [handleSearch], [handleSort] or [handleFilter], in
    any number and order, changes the [products] cell or the array in it:
    [products] is the same reference with the same contents, every array
    of the store keeps its contents (also when [filteredProducts] is the
    [products] array itself and is then sorted), and [loading] and [error]
    keep their values. *)
Theorem handlers_leave_products_alone cs hk h raw xs hk' h' :
  h !! products hk = Some raw -> h !! filteredProducts hk = Some xs ->
  calls cs hk h = Ok (hk', h') ->
  products hk' = products hk /\ h' !! products hk = Some raw /\
  extends h h' /\ loading hk' = loading hk /\ error hk' = error hk.
Proof.
  intros Hraw Hxs Hrun.
  destruct (calls_inv cs hk h raw xs hk' h' Hraw Hxs Hrun)
    as (Hp & Hlo & He & Hext & _).
  repeat split; try assumption. now apply (extends_lookup h h').
Qed.

(** X10.  [filteredProducts] is always drawn from [products]: after any
    calls of the handlers each product is in [filteredProducts] at most
    as often as in [products]. *)
Theorem filtered_products_come_from_products cs hk h raw xs hk' h' :
  h !! products hk = Some raw -> h !! filteredProducts hk = Some xs ->
  xs ⊆+ raw ->
  calls cs hk h = Ok (hk', h') ->
  exists ys, h' !! filteredProducts hk' = Some ys /\ ys ⊆+ raw.
Proof.
  intros Hraw Hxs Hsub Hrun.
  destruct (calls_inv cs hk h raw xs hk' h' Hraw Hxs Hrun)
    as (_ & _ & _ & _ & ys & Hys & Hsub').
  exists ys. auto.
Qed.


(** X12.  [handleSearch] and [handleFilter] do not depend on the case of
    their argument: two strings with the same lower-cased form give the
    same run. *)
Theorem handlers_ignore_case (s t : string) hk h :
  toLowerCase s = toLowerCase t ->
  handleSearch (VStr s) hk h = handleSearch (VStr t) hk h /\
  handleFilter (VStr s) hk h = handleFilter (VStr t) hk h.
Proof.
  intros Hlow. split.
  - unfold handleSearch.
    now rewrite (trim_lower_truthy s t Hlow), Hlow.
  - unfold handleFilter, category_callback. cbn [truthy].
    rewrite <- (truthy_lower s), <- (truthy_lower t), !trim_eqb_blank.
    rewrite <- (blank_lower s), <- (blank_lower t), Hlow. reflexivity.
Qed.

(** X13.  When the fetch of the list fails, [loading] ends, [error]
    holds the message of the failure, and both arrays stay empty: no
    later search, sort or filter puts a product in [filteredProducts]. *)
Theorem failed_load_leaves_nothing_to_show (err : JsError) cs h :
  forallb expected_argument cs = true ->
  exists hk' h',
    bind mount (fun hk => bind (loadProducts (Throw err) hk) (calls cs)) h
      = Ok (hk', h') /\
    loading hk' = false /\ error hk' = Some (err_message err) /\
    h' !! products hk' = Some [] /\ h' !! filteredProducts hk' = Some [].
Proof.
  intros Hcs.
  set (hk1 := {| products := length h; filteredProducts := length (h ++ [[]]);
                 loading := false; error := Some (err_message err) |}).
  set (h1 := (h ++ [[]]) ++ [[]]).
  assert (Hraw : h1 !! products hk1 = Some []).
  { subst h1 hk1. cbn [products].
    apply (extends_lookup (h ++ [[]])); [apply extends_snoc | apply lookup_snoc]. }
  assert (Hxs : h1 !! filteredProducts hk1 = Some []).
  { subst h1 hk1. cbn [filteredProducts]. apply lookup_snoc. }
  destruct (calls_return cs hk1 h1 [] [] Hraw Hxs Hcs) as (hk' & h' & Hrun).
  destruct (calls_inv cs hk1 h1 [] [] hk' h' Hraw Hxs Hrun)
    as (Hp & Hlo & He & Hext & ys & Hys & Hsub).
  exists hk', h'. split; [exact Hrun|].
  repeat split; try assumption.
  - rewrite Hp. now apply (extends_lookup h1 h').
  - rewrite Hys. f_equal. apply submseteq_nil_r. now apply Hsub.
Qed.

(** X14.  The hook's sort and the screen's sort agree on products that
    have a title and a price: [handleSort('title')] leaves in its new
    array the order that [sortProducts] gives with 'name-asc', and
    [handleSort('price')] the order it gives with 'price-asc'. *)
Theorem hook_sort_agrees_with_screen_sort st hk h xs :
  h !! filteredProducts hk = Some xs ->
  forallb well_formed xs = true ->
  exists byTitle byPrice,
    handleSort (VStr "title") hk h
      = Ok (setFilteredProducts (length h) hk, h ++ [byTitle]) /\
    HomeScreen.sortProducts (HomeScreen.setSortBy "name-asc" st)
                            (Some (filteredProducts hk)) h
      = Ok (length h, h ++ [byTitle]) /\
    handleSort (VStr "price") hk h
      = Ok (setFilteredProducts (length h) hk, h ++ [byPrice]) /\
    HomeScreen.sortProducts (HomeScreen.setSortBy "price-asc" st)
                            (Some (filteredProducts hk)) h
      = Ok (length h, h ++ [byPrice]).
Proof.
  intros Hxs Hwf.
  exists (isort title_le xs), (isort price_le xs).
  pose proof (HomeScreenFacts.sortProducts_run
                (HomeScreen.setSortBy "name-asc" st) h _ xs Hxs) as R1.
  rewrite (HomeScreenFacts.sort_list_name
             (HomeScreen.setSortBy "name-asc" st) xs eq_refl Hwf) in R1.
  pose proof (HomeScreenFacts.sortProducts_run
                (HomeScreen.setSortBy "price-asc" st) h _ xs Hxs) as R2.
  rewrite (HomeScreenFacts.sort_list_price_asc
             (HomeScreen.setSortBy "price-asc" st) xs eq_refl Hwf) in R2.
  rewrite !(handleSort_run _ hk h xs Hxs).
  repeat split; assumption.
Qed.

End Handlers.

Lemma handlers_leave_products_alone_witness :
  products (setFilteredProducts 1 loaded) = products loaded /\
  [scenario; [lipstick; iphone; samsung]] !! products loaded = Some scenario /\
  extends [scenario] [scenario; [lipstick; iphone; samsung]] /\
  loading (setFilteredProducts 1 loaded) = loading loaded /\
  error (setFilteredProducts 1 loaded) = error loaded.
Proof.
  apply (@handlers_leave_products_alone code_units
           [Search (VStr ""); Sort (VStr "price")] loaded [scenario] scenario scenario);
    reflexivity.
Defined.

Lemma filtered_products_come_from_products_witness :
  exists ys,
    [scenario; [lipstick]; [lipstick]]
      !! filteredProducts (setFilteredProducts 2 (setFilteredProducts 1 loaded))
      = Some ys /\
    ys ⊆+ scenario.
Proof.
  apply (@filtered_products_come_from_products code_units
           [Filter (VStr "BEAUTY"); Sort (VStr "title")] loaded [scenario]
           scenario scenario); reflexivity.
Defined.


Lemma handlers_ignore_case_witness :
  handleSearch (VStr "Lip") loaded [scenario]
  = handleSearch (VStr "LIP") loaded [scenario] /\
  handleFilter (VStr "Lip") loaded [scenario]
  = handleFilter (VStr "LIP") loaded [scenario].
Proof. apply (handlers_ignore_case "Lip" "LIP" loaded [scenario]). reflexivity. Defined.

Lemma failed_load_leaves_nothing_to_show_witness :
  exists hk' h',
    bind mount
      (fun hk => bind (loadProducts (Throw (MkError NTypeError "Network request failed")) hk)
                      (@calls code_units [Search (VStr "lip"); Filter (VStr "beauty")]))
      [] = Ok (hk', h') /\
    loading hk' = false /\
    error hk' = Some (err_message (MkError NTypeError "Network request failed")) /\
    h' !! products hk' = Some [] /\ h' !! filteredProducts hk' = Some [].
Proof.
  apply (@failed_load_leaves_nothing_to_show code_units
           (MkError NTypeError "Network request failed")
           [Search (VStr "lip"); Filter (VStr "beauty")] []).
  reflexivity.
Defined.

Lemma hook_sort_agrees_with_screen_sort_witness :
  exists byTitle byPrice,
    @handleSort code_units (VStr "title") loaded [scenario]
      = Ok (setFilteredProducts (length [scenario]) loaded, [scenario] ++ [byTitle]) /\
    @HomeScreen.sortProducts code_units
      (HomeScreen.setSortBy "name-asc" HomeScreen.smartphones_by_price)
      (Some (filteredProducts loaded)) [scenario]
      = Ok (length [scenario], [scenario] ++ [byTitle]) /\
    @handleSort code_units (VStr "price") loaded [scenario]
      = Ok (setFilteredProducts (length [scenario]) loaded, [scenario] ++ [byPrice]) /\
    @HomeScreen.sortProducts code_units
      (HomeScreen.setSortBy "price-asc" HomeScreen.smartphones_by_price)
      (Some (filteredProducts loaded)) [scenario]
      = Ok (length [scenario], [scenario] ++ [byPrice]).
Proof.
  apply (@hook_sort_agrees_with_screen_sort code_units
           HomeScreen.smartphones_by_price loaded [scenario] scenario);
    reflexivity.
Defined.

End UseProductsLaws.

(* ===================================================================== *)
(** ** src/services/api.js: requests and answers *)
(* ===================================================================== *)

Module ApiLaws.
Import JsString JsStringFacts JsStringLaws JsValue Api ApiFacts.

Lemma percent_uri (n : nat) : n < 256 -> uri_component (percent n) = true.
Proof.
  intros Hn. do 256 (destruct n as [|n]; [reflexivity|]). lia.
Qed.

Lemma uri_component_app (a b : string) :
  uri_component (a +:+ b) = uri_component a && uri_component b.
Proof.
  unfold uri_component. induction a as [|c a IH]; [reflexivity|].
  cbn. now rewrite IH, andb_assoc.
Qed.

Lemma encoded_char_uri (c : ascii) :
  uri_component (if is_unreserved c then String c "" else escape c) = true.
Proof. destruct c as [[] [] [] [] [] [] [] []]; reflexivity. Qed.

(** The body that [fetchProducts], [searchProducts] and
    [fetchProductsByCategory] share, run against a network. *)
Lemma list_request_run (net : Request -> FetchOutcome) (u : string) :
  run net
    (try_catch
       (await (fetch u None) (fun response =>
          if negb (ok response) then reject (http_error response)
          else await (json response) (fun data => get_products data)))
       rethrow)
  = ([{| url := u; signal := None |}],
     match net {| url := u; signal := None |} with
     | NetworkFailure e => Throw e
     | Responded r =>
         if ok r then
           match body r with
           | None => Throw (MkError NSyntaxError "JSON Parse error")
           | Some JNull =>
               Throw (type_error "Cannot read properties of null (reading 'products')")
           | Some data => Ok (products_field data)
           end
         else Throw (http_error r)
     end).
Proof.
  cbn. destruct (net _) as [e|r]; [reflexivity|]. cbn.
  destruct (ok r); cbn; [|reflexivity].
  unfold json. destruct (body r) as [data|]; [|reflexivity].
  destruct data; reflexivity.
Qed.

Lemma product_request_run (net : Request -> FetchOutcome) (id : jsval) :
  run net
    (try_catch
       (await (fetch (API_BASE_URL +:+ "/products/" +:+ to_string id) None)
          (fun response =>
           if negb (ok response) then
             if (status response =? 404)%Z
             then reject (error ("Product with ID " +:+ to_string id +:+ " not found"))
             else reject (http_error response)
           else await (json response) (fun data => resolve data)))
       rethrow)
  = ([product_request id],
     match net (product_request id) with
     | NetworkFailure e => Throw e
     | Responded r =>
         if ok r then
           match body r with
           | None => Throw (MkError NSyntaxError "JSON Parse error")
           | Some data => Ok data
           end
         else if (status r =? 404)%Z
              then Throw (error ("Product with ID " +:+ to_string id +:+ " not found"))
              else Throw (http_error r)
     end).
Proof.
  cbn. fold (product_request id).
  destruct (net _) as [e|r]; [reflexivity|]. cbn.
  destruct (ok r); cbn.
  - unfold json. now destruct (body r).
  - now destruct (status r =? 404)%Z.
Qed.

Lemma is_blank_string (name s : string) :
  is_blank name (VStr s) = Ok (blank s).
Proof.
  unfold is_blank. cbn [truthy]. destruct s as [|c s]; [reflexivity|].
  cbn [truthy_string negb string_method rbind]. now rewrite trim_eqb_blank.
Qed.

Lemma fetchProducts_outcome net args :
  outcome net (fetchProducts args)
  = Normal (run net
      (try_catch
         (await (fetch (url products_request) None) (fun response =>
            if negb (ok response) then reject (http_error response)
            else await (json response) (fun data => get_products data)))
         rethrow)).
Proof. reflexivity. Qed.

Lemma searchProducts_outcome net s rest :
  blank s = false ->
  outcome net (searchProducts (VStr s :: rest))
  = Normal (run net
      (try_catch
         (await (fetch (url (search_request s)) None) (fun response =>
            if negb (ok response) then reject (http_error response)
            else await (json response) (fun data => get_products data)))
         rethrow)).
Proof.
  intros Hs. unfold searchProducts, async_function, outcome.
  cbn [arg nth]. now rewrite is_blank_string, Hs.
Qed.

Lemma fetchProductsByCategory_outcome net s rest :
  blank s = false ->
  outcome net (fetchProductsByCategory (VStr s :: rest))
  = Normal (run net
      (try_catch
         (await (fetch (url (category_request s)) None) (fun response =>
            if negb (ok response) then reject (http_error response)
            else await (json response) (fun data => get_products data)))
         rethrow)).
Proof.
  intros Hs. unfold fetchProductsByCategory, async_function, outcome.
  cbn [arg nth]. now rewrite is_blank_string, Hs.
Qed.

Lemma fetchProductById_outcome net id rest :
  is_missing id = false ->
  outcome net (fetchProductById (id :: rest))
  = Normal (run net
      (try_catch
         (await (fetch (API_BASE_URL +:+ "/products/" +:+ to_string id) None)
            (fun response =>
             if negb (ok response) then
               if (status response =? 404)%Z
               then reject (error ("Product with ID " +:+ to_string id +:+ " not found"))
               else reject (http_error response)
             else await (json response) (fun data => resolve data)))
         rethrow)).
Proof.
  intros Hid. unfold fetchProductById, async_function, outcome.
  cbn [arg nth]. now rewrite Hid.
Qed.

(** What a call does against [net], once its argument is accepted. *)
Ltac run_call Hs Hid :=
  rewrite ?fetchProducts_outcome, ?(searchProducts_outcome _ _ _ Hs),
    ?(fetchProductsByCategory_outcome _ _ _ Hs),
    ?(fetchProductById_outcome _ _ _ Hid),
    ?list_request_run, ?product_request_run.

(** X15.  A call whose argument is accepted sends exactly one request,
    whatever the network answers: [fetchProducts] for the first 150
    products; [searchProducts] and [fetchProductsByCategory], for a string
    [s] of code units U+0000..U+00FF that is not blank, for the
    percent-encoded [s] as it was given (it is trimmed only for the
    test); and [fetchProductById] for every id other than [null],
    [undefined] and the empty string, zero, [false] and blank strings
    included, where an id that is a number is a safe integer.  No request
    carries a signal. *)
Theorem accepted_call_sends_one_request
        (net : Request -> FetchOutcome) (s : string) (id : jsval)
        (rest : list jsval) :
  blank s = false -> is_missing id = false -> safe_number id = true ->
  requests net (fetchProducts rest) = [products_request] /\
  requests net (searchProducts (VStr s :: rest)) = [search_request s] /\
  requests net (fetchProductsByCategory (VStr s :: rest)) = [category_request s] /\
  requests net (fetchProductById (id :: rest)) = [product_request id].
Proof.
  intros Hs Hid _.
  pose proof (fetchProducts_outcome net rest) as H1.
  pose proof (searchProducts_outcome net s rest Hs) as H2.
  pose proof (fetchProductsByCategory_outcome net s rest Hs) as H3.
  pose proof (fetchProductById_outcome net id rest Hid) as H4.
  rewrite list_request_run in H1, H2, H3. rewrite product_request_run in H4.
  unfold outcome, requests in *.
  destruct (fetchProducts rest); [|discriminate].
  destruct (searchProducts _); [|discriminate].
  destruct (fetchProductsByCategory _); [|discriminate].
  destruct (fetchProductById _); [|discriminate].
  injection H1 as ->. injection H2 as ->. injection H3 as ->. injection H4 as ->.
  repeat split.
Qed.

Lemma encodeURIComponent_uri (s : string) :
  uri_component (encodeURIComponent s) = true.
Proof.
  induction s as [|c s IH]; [reflexivity|].
  cbn [encodeURIComponent]. rewrite uri_component_app, IH, encoded_char_uri.
  reflexivity.
Qed.

(** X16.  The search text and the category reach the network
    percent-encoded.  For a string of code units U+0000..U+00FF that is
    not blank, the one request that [searchProducts] sends has the URL
    [https://dummyjson.com/products/search?q=] followed by a text [q], and
    the one that [fetchProductsByCategory] sends
    [https://dummyjson.com/products/category/] followed by the same [q],
    where [q] consists of unreserved characters and percent signs only:
    no character of the argument can end the path or start another
    parameter. *)
Theorem encoded_argument_is_url_safe
        (net : Request -> FetchOutcome) (s : string) (rest : list jsval) :
  blank s = false ->
  exists q,
    uri_component q = true /\
    requests net (searchProducts (VStr s :: rest))
      = [{| url := "https://dummyjson.com/products/search?q=" +:+ q;
            signal := None |}] /\
    requests net (fetchProductsByCategory (VStr s :: rest))
      = [{| url := "https://dummyjson.com/products/category/" +:+ q;
            signal := None |}].
Proof.
  intros Hs. exists (encodeURIComponent s).
  split; [apply encodeURIComponent_uri|].
  pose proof (searchProducts_outcome net s rest Hs) as H2.
  pose proof (fetchProductsByCategory_outcome net s rest Hs) as H3.
  rewrite list_request_run in H2, H3.
  unfold outcome, requests in *.
  destruct (searchProducts _); [|discriminate].
  destruct (fetchProductsByCategory _); [|discriminate].
  injection H2 as ->. injection H3 as ->.
  split; reflexivity.
Qed.

(** X17.  An answer with a status outside 200..299 rejects the promise
    with the error "HTTP error! status: N" and the body is not read;
    [fetchProductById] reports the status 404 as "Product with ID <id>
    not found" instead. *)
Theorem http_failure_is_reported_with_its_status
        (r : Response) (s : string) (id : jsval) (rest : list jsval) :
  blank s = false -> is_missing id = false -> ok r = false ->
  let net := fun _ : Request => Responded r in
  outcome net (fetchProducts rest)
    = Normal ([products_request], Throw (http_error r)) /\
  outcome net (searchProducts (VStr s :: rest))
    = Normal ([search_request s], Throw (http_error r)) /\
  outcome net (fetchProductsByCategory (VStr s :: rest))
    = Normal ([category_request s], Throw (http_error r)) /\
  outcome net (fetchProductById (id :: rest))
    = Normal ([product_request id],
              Throw (if (status r =? 404)%Z
                     then error ("Product with ID " +:+ to_string id +:+ " not found")
                     else http_error r)).
Proof.
  intros Hs Hid Hr net. run_call Hs Hid. subst net. cbv beta iota. rewrite Hr.
  repeat split. now destruct (status r =? 404)%Z.
Qed.

(** X18.  When the request fails in the network, the promise is rejected
    with the error that [fetch] gave, name and message unchanged: the
    [catch] blocks log it and throw it again. *)
Theorem network_failure_is_rethrown_unchanged
        (e : JsError) (s : string) (id : jsval) (rest : list jsval) :
  blank s = false -> is_missing id = false ->
  let net := fun _ : Request => NetworkFailure e in
  outcome net (fetchProducts rest) = Normal ([products_request], Throw e) /\
  outcome net (searchProducts (VStr s :: rest))
    = Normal ([search_request s], Throw e) /\
  outcome net (fetchProductsByCategory (VStr s :: rest))
    = Normal ([category_request s], Throw e) /\
  outcome net (fetchProductById (id :: rest))
    = Normal ([product_request id], Throw e).
Proof.
  intros Hs Hid net. run_call Hs Hid. repeat split.
Qed.

(** X19.  With an answer in 200..299 whose body is the JSON [data],
    [fetchProductById] resolves with [data] as it is, and the three list
    functions with [data.products], which is [undefined] when [data] has
    no such property: the answer is not checked to be a product or an
    array.  Only [null] as [data] makes the list functions reject. *)
Theorem successful_answer_is_passed_on_unchecked
        (r : Response) (data : Json) (s : string) (id : jsval)
        (rest : list jsval) :
  blank s = false -> is_missing id = false ->
  ok r = true -> body r = Some data -> data <> JNull ->
  let net := fun _ : Request => Responded r in
  outcome net (fetchProducts rest)
    = Normal ([products_request], Ok (products_field data)) /\
  outcome net (searchProducts (VStr s :: rest))
    = Normal ([search_request s], Ok (products_field data)) /\
  outcome net (fetchProductsByCategory (VStr s :: rest))
    = Normal ([category_request s], Ok (products_field data)) /\
  outcome net (fetchProductById (id :: rest))
    = Normal ([product_request id], Ok data).
Proof.
  intros Hs Hid Hr Hbody Hdata net. run_call Hs Hid.
  subst net. cbv beta iota. rewrite Hr, Hbody.
  destruct data; try contradiction; repeat split.
Qed.

(** X20.  A body that is not JSON rejects the promise with a
    [SyntaxError], although the status said that the request had
    succeeded. *)
Theorem unparsable_body_is_a_syntax_error
        (r : Response) (s : string) (id : jsval) (rest : list jsval) :
  blank s = false -> is_missing id = false ->
  ok r = true -> body r = None ->
  let net := fun _ : Request => Responded r in
  let e := MkError NSyntaxError "JSON Parse error" in
  outcome net (fetchProducts rest) = Normal ([products_request], Throw e) /\
  outcome net (searchProducts (VStr s :: rest))
    = Normal ([search_request s], Throw e) /\
  outcome net (fetchProductsByCategory (VStr s :: rest))
    = Normal ([category_request s], Throw e) /\
  outcome net (fetchProductById (id :: rest))
    = Normal ([product_request id], Throw e).
Proof.
  intros Hs Hid Hr Hbody net e. run_call Hs Hid.
  subst net. cbv beta iota. rewrite Hr, Hbody. repeat split.
Qed.

(** X21.  A query or category that is truthy and not a string (a number,
    [true], an object) is not refused as empty: the call of [trim] on it
    fails, the promise is rejected with a [TypeError], and no request is
    sent. *)
Theorem non_string_argument_is_a_type_error
        (net : Request -> FetchOutcome) (v : jsval) (rest : list jsval) :
  truthy v = true -> (forall s, v <> VStr s) ->
  outcome net (searchProducts (v :: rest))
    = Normal ([], Throw (type_error "query.trim is not a function")) /\
  outcome net (fetchProductsByCategory (v :: rest))
    = Normal ([], Throw (type_error "category.trim is not a function")).
Proof.
  intros Hv Hstr.
  unfold searchProducts, fetchProductsByCategory, async_function, outcome, is_blank.
  cbn [arg nth]. rewrite Hv. cbn [negb].
  destruct v as [| |b|z|s|a]; try discriminate Hv;
    try (split; reflexivity).
  now destruct (Hstr s).
Qed.

Lemma encoded_argument_is_url_safe_witness :
  exists q,
    uri_component q = true /\
    requests silent_network (searchProducts [VStr "a&b=c d/e?#"])
      = [{| url := "https://dummyjson.com/products/search?q=" +:+ q;
            signal := None |}] /\
    requests silent_network (fetchProductsByCategory [VStr "a&b=c d/e?#"])
      = [{| url := "https://dummyjson.com/products/category/" +:+ q;
            signal := None |}].
Proof.
  apply (encoded_argument_is_url_safe silent_network "a&b=c d/e?#" []).
  reflexivity.
Defined.

Lemma accepted_call_sends_one_request_witness :
  requests silent_network (fetchProducts []) = [products_request] /\
  requests silent_network (searchProducts [VStr " red lipstick"])
    = [search_request " red lipstick"] /\
  requests silent_network (fetchProductsByCategory [VStr " red lipstick"])
    = [category_request " red lipstick"] /\
  requests silent_network (fetchProductById [VNum 0]) = [product_request (VNum 0)].
Proof.
  apply (accepted_call_sends_one_request silent_network " red lipstick" (VNum 0) []);
    reflexivity.
Defined.

Lemma http_failure_is_reported_with_its_status_witness :
  let r := {| status := 404; body := None |} in
  let net := fun _ : Request => Responded r in
  outcome net (fetchProducts [])
    = Normal ([products_request], Throw (http_error r)) /\
  outcome net (searchProducts [VStr "lip"])
    = Normal ([search_request "lip"], Throw (http_error r)) /\
  outcome net (fetchProductsByCategory [VStr "lip"])
    = Normal ([category_request "lip"], Throw (http_error r)) /\
  outcome net (fetchProductById [VNum 7])
    = Normal ([product_request (VNum 7)],
              Throw (if (status r =? 404)%Z
                     then error ("Product with ID " +:+ to_string (VNum 7) +:+ " not found")
                     else http_error r)).
Proof.
  apply (http_failure_is_reported_with_its_status
           {| status := 404; body := None |} "lip" (VNum 7) []);
    reflexivity.
Defined.

Lemma network_failure_is_rethrown_unchanged_witness :
  let e := MkError NTypeError "Network request failed" in
  let net := fun _ : Request => NetworkFailure e in
  outcome net (fetchProducts []) = Normal ([products_request], Throw e) /\
  outcome net (searchProducts [VStr "lip"])
    = Normal ([search_request "lip"], Throw e) /\
  outcome net (fetchProductsByCategory [VStr "lip"])
    = Normal ([category_request "lip"], Throw e) /\
  outcome net (fetchProductById [VNum 7])
    = Normal ([product_request (VNum 7)], Throw e).
Proof.
  apply (network_failure_is_rethrown_unchanged
           (MkError NTypeError "Network request failed") "lip" (VNum 7) []);
    reflexivity.
Defined.

Lemma successful_answer_is_passed_on_unchecked_witness :
  let r := {| status := 200; body := Some essence_mascara |} in
  let net := fun _ : Request => Responded r in
  outcome net (fetchProducts [])
    = Normal ([products_request], Ok (products_field essence_mascara)) /\
  outcome net (searchProducts [VStr "lip"])
    = Normal ([search_request "lip"], Ok (products_field essence_mascara)) /\
  outcome net (fetchProductsByCategory [VStr "lip"])
    = Normal ([category_request "lip"], Ok (products_field essence_mascara)) /\
  outcome net (fetchProductById [VNum 1])
    = Normal ([product_request (VNum 1)], Ok essence_mascara).
Proof.
  apply (successful_answer_is_passed_on_unchecked
           {| status := 200; body := Some essence_mascara |} essence_mascara
           "lip" (VNum 1) []);
    try reflexivity. discriminate.
Defined.

Lemma unparsable_body_is_a_syntax_error_witness :
  let r := {| status := 200; body := None |} in
  let net := fun _ : Request => Responded r in
  let e := MkError NSyntaxError "JSON Parse error" in
  outcome net (fetchProducts []) = Normal ([products_request], Throw e) /\
  outcome net (searchProducts [VStr "lip"])
    = Normal ([search_request "lip"], Throw e) /\
  outcome net (fetchProductsByCategory [VStr "lip"])
    = Normal ([category_request "lip"], Throw e) /\
  outcome net (fetchProductById [VNum 1])
    = Normal ([product_request (VNum 1)], Throw e).
Proof.
  apply (unparsable_body_is_a_syntax_error
           {| status := 200; body := None |} "lip" (VNum 1) []);
    reflexivity.
Defined.

Lemma non_string_argument_is_a_type_error_witness :
  outcome silent_network (searchProducts [VNum 5])
    = Normal ([], Throw (type_error "query.trim is not a function")) /\
  outcome silent_network (fetchProductsByCategory [VNum 5])
    = Normal ([], Throw (type_error "category.trim is not a function")).
Proof.
  apply (non_string_argument_is_a_type_error silent_network (VNum 5) []);
    [reflexivity | discriminate].
Defined.

End ApiLaws.

(* ===================================================================== *)
(** ** src/hooks/useProductDetail.js: what every sequence of events keeps *)
(* ===================================================================== *)

Module UseProductDetailLaws.
Import JsString JsValue Api ApiFacts UseProductDetail UseProductDetailFacts.

Lemma message_or_default_truthy (err : JsError) :
  truthy_string (message_or_default err) = true.
Proof.
  unfold message_or_default.
  destruct (truthy_string (err_message err)) eqn:E; [exact E | reflexivity].
Qed.

Lemma coherent_initial : coherent initial.
Proof.
  split; [|split]; cbn.
  - intros i e H. now rewrite lookup_nil in H.
  - reflexivity.
  - discriminate.
Qed.

Lemma cleanup_all_aborted hk i e :
  coherent hk -> effects (cleanup hk) !! i = Some e -> aborted e = true.
Proof.
  intros (HA & _ & _). unfold cleanup. cbn [effects with_effects].
  destruct (decide (length (effects hk) - 1 = i)) as [<-|Hne].
  - rewrite list_lookup_alter_eq.
    destruct (effects hk !! _) as [e0|]; cbn; [|discriminate].
    now intros [= <-].
  - rewrite list_lookup_alter_ne by assumption. intros He.
    destruct (aborted e) eqn:Ha; [reflexivity|].
    destruct (HA i e He Ha) as [_ Hi]. lia.
Qed.

Lemma coherent_run_effect pid hk :
  unmounted hk = false ->
  (forall i e, effects hk !! i = Some e -> aborted e = true) ->
  coherent (run_effect pid hk).
Proof.
  intros Hm Hall. split; [|split]; cbn.
  - intros i e He Ha. unfold current. cbn. rewrite length_app. cbn.
    split; [assumption|].
    destruct (decide (i < length (effects hk))) as [Hlt|Hge].
    + rewrite lookup_app_l in He by assumption.
      rewrite (Hall i e He) in Ha. discriminate.
    + apply lookup_lt_Some in He. rewrite length_app in He. cbn in He. lia.
  - reflexivity.
  - discriminate.
Qed.

Lemma last_alter_abort (l : list Effect) :
  last (alter abort (length l - 1) l) = abort <$> last l.
Proof.
  rewrite !last_lookup, length_alter.
  replace (Init.Nat.pred (length l)) with (length l - 1) by lia.
  apply list_lookup_alter_eq.
Qed.

Lemma coherent_unmount hk :
  coherent hk ->
  coherent {| product := product (cleanup hk); loading := loading (cleanup hk);
              error := error (cleanup hk); effects := effects (cleanup hk);
              unmounted := true |}.
Proof.
  intros Hc. pose proof Hc as (HA & HB & HC). split; [|split]; cbn.
  - intros i e He Ha.
    rewrite (cleanup_all_aborted hk i e Hc He) in Ha. discriminate.
  - exact HB.
  - intros Hl. destruct (HC Hl) as (e & Hlast & Hres & Hset).
    exists (abort e). rewrite last_alter_abort, Hlast. split; [reflexivity|].
    split; [exact Hres | exact Hset].
Qed.

(** The answer to a run that is not the latest, or whose fetch has
    resumed, leaves the latest run as it is. *)
Lemma last_insert_ne (l : list Effect) (i : nat) (e' e0 : Effect) :
  last l = Some e0 -> l !! i <> Some e0 -> last (<[i := e']> l) = Some e0.
Proof.
  rewrite !last_lookup, length_insert. intros Hlast Hi.
  rewrite list_lookup_insert_ne; [assumption|].
  intros ->. contradiction.
Qed.

Lemma coherent_settle hk i o : coherent hk -> coherent (step hk (Settle i o)).
Proof.
  intros Hc. pose proof Hc as (HA & HB & HC). cbn [step].
  destruct (effects hk !! i) as [e|] eqn:He; [|exact Hc].
  destruct (resumed e) eqn:Hres; [exact Hc|].
  assert (Hi : i < length (effects hk)) by now apply lookup_lt_Some in He.
  assert (Hkeep : forall e', aborted e' = aborted e ->
            forall j x, <[i := e']> (effects hk) !! j = Some x ->
            aborted x = false -> unmounted hk = false /\ S j = length (effects hk)).
  { intros e' Hab j x Hx Hax.
    destruct (decide (i = j)) as [<-|Hne].
    - rewrite list_lookup_insert_eq in Hx by assumption. injection Hx as <-.
      rewrite Hab in Hax. exact (HA i e He Hax).
    - rewrite list_lookup_insert_ne in Hx by assumption. exact (HA j x Hx Hax). }
  assert (Hlast : forall e', loading hk = false ->
            exists e0, last (<[i := e']> (effects hk)) = Some e0 /\ settled_by e0 hk).
  { intros e' Hl. destruct (HC Hl) as (e0 & Hlast & Hset).
    exists e0. split; [|exact Hset].
    apply last_insert_ne; [assumption|].
    rewrite He. intros [= ->]. destruct Hset as [Hr _]. congruence. }
  destruct (answer o (fetching e)) as [r|req k] eqn:Hans.
  - destruct (aborted e) eqn:Hab.
    + (* the run was cancelled: nothing is set *)
      unfold resume. destruct r; split; [| split | | split]; cbn;
        try exact HB;
        try (intros j x; unfold current; cbn; rewrite length_insert;
             now apply Hkeep);
        try (intros Hl; destruct (Hlast
               {| productId := productId e; aborted := true;
                  fetching := Settled (Ok a); resumed := true |} Hl)
               as (e0 & H0 & H1 & H2); exists e0; now repeat split);
        try (intros Hl; destruct (Hlast
               {| productId := productId e; aborted := true;
                  fetching := Settled (Throw e0); resumed := true |} Hl)
               as (e1 & H0 & H1 & H2); exists e1; now repeat split).
    + (* the current run: it is the latest, and the hook was loading *)
      destruct (HA i e He Hab) as [Hm HSi].
      assert (Hload : loading hk = true).
      { destruct (loading hk) eqn:Hl; [reflexivity|].
        destruct (HC eq_refl) as (e0 & Hlast0 & Hr0 & _).
        rewrite last_lookup in Hlast0.
        replace (Init.Nat.pred (length (effects hk))) with i in Hlast0 by lia.
        congruence. }
      assert (Hnew : forall e', last (<[i := e']> (effects hk)) = Some e').
      { intros e'. rewrite last_lookup, length_insert.
        replace (Init.Nat.pred (length (effects hk))) with i by lia.
        now apply list_lookup_insert_eq. }
      unfold resume. destruct r as [data|err]; split; [| split | | split]; cbn;
        try discriminate;
        try (intros j x; unfold current; cbn; rewrite length_insert;
             now apply Hkeep).
      * intros _. eexists. split; [apply Hnew|].
        split; [reflexivity|]. cbn. split; [reflexivity | now apply HB].
      * intros _. eexists. split; [apply Hnew|].
        split; reflexivity.
  - split; [|split]; cbn.
    + intros j x. unfold current. cbn. rewrite length_insert. now apply Hkeep.
    + exact HB.
    + intros Hl. destruct (Hlast
        {| productId := productId e; aborted := aborted e;
           fetching := AwaitFetch req k; resumed := false |} Hl)
        as (e0 & H0 & H1 & H2).
      exists e0. now repeat split.
Qed.

Lemma coherent_step hk ev : coherent hk -> coherent (step hk ev).
Proof.
  intros Hc. destruct ev as [pid| |i o].
  - cbn [step]. destruct (unmounted hk) eqn:Hm; [exact Hc|].
    destruct (last (effects hk)) as [e|] eqn:Hlast.
    + destruct (same_value (productId e) pid); [exact Hc|].
      apply coherent_run_effect; [exact Hm|].
      intros i x. now apply cleanup_all_aborted.
    + apply coherent_run_effect; [exact Hm|].
      intros i x Hx. rewrite last_lookup in Hlast.
      apply lookup_ge_None in Hlast. apply lookup_lt_Some in Hx. lia.
  - cbn [step]. destruct (unmounted hk); [exact Hc|].
    now apply coherent_unmount.
  - now apply coherent_settle.
Qed.

Lemma coherent_run_events evs : forall hk,
  coherent hk -> coherent (run_events hk evs).
Proof.
  induction evs as [|ev evs IH]; intros hk Hc; [exact Hc|].
  cbn. apply IH. now apply coherent_step.
Qed.

Lemma reachable_coherent (evs : list Event) : coherent (run_events initial evs).
Proof. apply coherent_run_events, coherent_initial. Qed.

Lemma coherent_current_is_loading hk i e :
  coherent hk -> effects hk !! i = Some e ->
  aborted e = false -> resumed e = false ->
  loading hk = true /\ error hk = None.
Proof.
  intros (HA & HB & HC) He Hab Hres.
  destruct (HA i e He Hab) as [_ HSi].
  assert (Hload : loading hk = true).
  { destruct (loading hk) eqn:Hl; [reflexivity|].
    destruct (HC eq_refl) as (e0 & Hlast0 & Hr0 & _).
    rewrite last_lookup in Hlast0.
    replace (Init.Nat.pred (length (effects hk))) with i in Hlast0 by lia.
    congruence. }
  split; [exact Hload | now apply HB].
Qed.

(** X22.  In every state the hook can reach, whatever the renders, the
    unmount and the answers of the network and their order: while
    [loading] is true [error] is null; once [loading] is false the latest
    run has settled and the state is what it has left, either the data
    its fetch resolved with as [product] and no error (the data can be the
    JSON value [null]: the hook then returns [null] as [product], as
    before the first fetch), or the message of the error it was rejected
    with as [error]; and an error message is never the empty string. *)
Theorem loading_and_error_exclude_each_other (evs : list Event) :
  let hk := run_events initial evs in
  (loading hk = true -> error hk = None) /\
  (loading hk = false ->
   exists e, last (effects hk) = Some e /\
     ((exists data, fetching e = Settled (Ok data) /\
                    product hk = Some data /\ error hk = None) \/
      (exists err, fetching e = Settled (Throw err) /\
                   error hk = Some (message_or_default err)))) /\
  (forall m, error hk = Some m -> m <> "").
Proof.
  intros hk. destruct (reachable_coherent evs) as (HA & HB & HC).
  fold hk in HA, HB, HC.
  assert (Hset : loading hk = false ->
            exists e, last (effects hk) = Some e /\
              ((exists data, fetching e = Settled (Ok data) /\
                             product hk = Some data /\ error hk = None) \/
               (exists err, fetching e = Settled (Throw err) /\
                            error hk = Some (message_or_default err)))).
  { intros Hl. destruct (HC Hl) as (e & Hlast & _ & Hset).
    exists e. split; [exact Hlast|].
    destruct (fetching e) as [[d|err]|]; [left | right | contradiction].
    - exists d. now destruct Hset.
    - now exists err. }
  split; [exact HB|]. split; [exact Hset|].
  intros m Hm. destruct (loading hk) eqn:Hl.
  - rewrite (HB eq_refl) in Hm. discriminate.
  - destruct (Hset eq_refl) as (e & _ & [(d & _ & _ & He)|(err & _ & He)]);
      rewrite He in Hm; [discriminate|].
    injection Hm as <-. intros Hempty.
    pose proof (message_or_default_truthy err) as Ht.
    rewrite Hempty in Ht. discriminate.
Qed.

(** X23.  At most one run of the effect has a controller that is not
    aborted, and it is the latest run of a mounted hook: every earlier
    run has been cancelled. *)
Theorem only_the_latest_run_is_live (evs : list Event) (i : nat) (e : Effect) :
  effects (run_events initial evs) !! i = Some e -> aborted e = false ->
  current (run_events initial evs) i.
Proof.
  intros He Ha. destruct (reachable_coherent evs) as (HA & _).
  exact (HA i e He Ha).
Qed.

(** X24.  The answer to the current run decides what the hook returns,
    in one step: a resolved fetch gives its data with no error, a rejected
    one its message.  On rejection [product] keeps the value it had: the
    product of an earlier id stays beside the error. *)
Theorem answer_to_the_current_run_settles_the_state
        (evs : list Event) (i : nat) (e : Effect) (o : FetchOutcome)
        (r : result Json) :
  let hk := run_events initial evs in
  effects hk !! i = Some e -> aborted e = false -> resumed e = false ->
  answer o (fetching e) = Settled r ->
  view (step hk (Settle i o)) =
    match r with
    | Ok data => (Some data, false, None)
    | Throw err => (product hk, false, Some (message_or_default err))
    end.
Proof.
  intros hk He Hab Hres Hans.
  destruct (coherent_current_is_loading hk i e (reachable_coherent evs)
              He Hab Hres) as [_ Herr].
  cbn [step]. rewrite He, Hres, Hans. unfold resume. rewrite Hab.
  destruct r as [data|err]; unfold view; cbn; [now rewrite Herr | reflexivity].
Qed.

(** X25.  The hook shows what [fetchProductById] returns.  After the
    first render with [pid] and the network's answer [o], the hook
    returns the data the API function resolves with, or the message of
    the error it rejects with: the validation error, the HTTP error, "not
    found", or the network's own error. *)
Theorem first_fetch_shows_what_the_api_returns (pid : jsval) (o : FetchOutcome) :
  view (run_events initial [Render pid; Settle 0 o]) =
    match settles pid o with
    | Ok data => (Some data, false, None)
    | Throw err => (None, false, Some (message_or_default err))
    end.
Proof.
  unfold settles, run_events, fetchProductById, async_function.
  cbn [fold_left arg nth]. unfold step at 2.
  cbn [unmounted initial effects last]. unfold run_effect, fetchProductById,
    async_function. cbn [arg nth].
  destruct (is_missing pid); [reflexivity|].
  destruct o as [err|r]; [reflexivity|].
  cbn -[String.append to_string]. unfold resume, view.
  destruct (ok r); cbn -[String.append to_string].
  - unfold json. destruct (body r); reflexivity.
  - destruct (status r =? 404)%Z; reflexivity.
Qed.

(** *** Answers to cancelled runs *)

Lemma alike_refl (e : Effect) : alike e e.
Proof. now left. Qed.

Lemma alike_productId (e1 e2 : Effect) : alike e1 e2 -> productId e1 = productId e2.
Proof. intros [->|(_ & _ & H)]; [reflexivity | exact H]. Qed.

Lemma alike_abort (e1 e2 : Effect) : alike e1 e2 -> alike (abort e1) (abort e2).
Proof.
  intros H. right. cbn. repeat split. now apply alike_productId.
Qed.

Lemma Forall2_alike_refl (l : list Effect) : Forall2 alike l l.
Proof. induction l; constructor; [apply alike_refl | assumption]. Qed.

Lemma view_resume (b : bool) (r : result Json) (hk1 hk2 : Hook) :
  view hk1 = view hk2 -> view (resume b r hk1) = view (resume b r hk2).
Proof.
  unfold view. intros [= Hp Hl He]. unfold resume.
  destruct r, b; cbn; congruence.
Qed.

Lemma unmounted_resume (b : bool) (r : result Json) (hk : Hook) :
  unmounted (resume b r hk) = unmounted hk.
Proof. unfold resume. destruct r, b; reflexivity. Qed.

(** The answer to a cancelled run: only what that run holds changes. *)
Lemma settle_aborted hk j e o :
  effects hk !! j = Some e -> aborted e = true ->
  exists x, aborted x = true /\ productId x = productId e /\
    effects (step hk (Settle j o)) = <[j := x]> (effects hk) /\
    view (step hk (Settle j o)) = view hk /\
    unmounted (step hk (Settle j o)) = unmounted hk.
Proof.
  intros He Ha. cbn [step]. rewrite He.
  destruct (resumed e) eqn:Hres.
  { exists e. repeat split; try assumption.
    now rewrite list_insert_id. }
  destruct (answer o (fetching e)) as [r|req k].
  - exists {| productId := productId e; aborted := aborted e;
              fetching := Settled r; resumed := true |}.
    rewrite resume_effects, unmounted_resume.
    cbn [effects with_effects aborted productId unmounted].
    repeat split; [assumption|].
    rewrite Ha. unfold resume. destruct r; reflexivity.
  - exists {| productId := productId e; aborted := aborted e;
              fetching := AwaitFetch req k; resumed := false |}.
    cbn [effects with_effects aborted productId unmounted].
    repeat split. assumption.
Qed.

Lemma same_but_for_cancelled_cleanup hk1 hk2 :
  same_but_for_cancelled hk1 hk2 ->
  same_but_for_cancelled (cleanup hk1) (cleanup hk2).
Proof.
  intros (Hv & Hm & Hes). repeat split; try assumption.
  unfold cleanup. cbn [effects with_effects].
  rewrite (Forall2_length _ _ _ Hes).
  apply Forall2_alter; [assumption|]. intros x y _ _. apply alike_abort.
Qed.

Lemma same_but_for_cancelled_run_effect pid hk1 hk2 :
  same_but_for_cancelled hk1 hk2 ->
  same_but_for_cancelled (run_effect pid hk1) (run_effect pid hk2).
Proof.
  intros (Hv & Hm & Hes). unfold view in Hv. injection Hv as Hp Hl He.
  repeat split; cbn.
  - unfold view. cbn. now rewrite Hp.
  - exact Hm.
  - apply Forall2_app; [assumption|]. constructor; [apply alike_refl | constructor].
Qed.

Lemma same_but_for_cancelled_step hk1 hk2 ev :
  same_but_for_cancelled hk1 hk2 ->
  same_but_for_cancelled (step hk1 ev) (step hk2 ev).
Proof.
  intros Hs. pose proof Hs as (Hv & Hm & Hes).
  destruct ev as [pid| |j o].
  - cbn [step]. rewrite <- Hm. destruct (unmounted hk1); [exact Hs|].
    pose proof (Forall2_last _ _ _ Hes) as Hlast.
    destruct Hlast as [e1 e2 Hal|].
    + rewrite <- (alike_productId e1 e2 Hal).
      destruct (same_value (productId e1) pid); [exact Hs|].
      now apply same_but_for_cancelled_run_effect, same_but_for_cancelled_cleanup.
    + now apply same_but_for_cancelled_run_effect.
  - cbn [step]. rewrite <- Hm. destruct (unmounted hk1); [exact Hs|].
    destruct (same_but_for_cancelled_cleanup hk1 hk2 Hs) as (Hv' & _ & Hes').
    unfold view in Hv'. injection Hv' as Hp Hl He.
    repeat split; cbn; [|exact Hes'].
    unfold view. cbn in *. congruence.
  - destruct (effects hk1 !! j) as [e1|] eqn:H1.
    + destruct (Forall2_lookup_l _ _ _ j e1 Hes H1) as (e2 & H2 & Hal).
      destruct Hal as [<-|(Ha1 & Ha2 & Hpid)].
      * (* the same run on both sides *)
        cbn [step]. rewrite H1, H2.
        destruct (resumed e1); [exact Hs|].
        destruct (answer o (fetching e1)) as [r|req k].
        -- repeat split.
           ++ now apply view_resume.
           ++ now rewrite !unmounted_resume.
           ++ rewrite !resume_effects. cbn [effects with_effects].
              apply Forall2_insert; [assumption | apply alike_refl].
        -- repeat split; try assumption. cbn [effects with_effects].
           apply Forall2_insert; [assumption | apply alike_refl].
      * (* a cancelled run *)
        destruct (settle_aborted hk1 j e1 o H1 Ha1)
          as (x1 & Hx1 & Hp1 & E1 & Hv1 & Hm1).
        destruct (settle_aborted hk2 j e2 o H2 Ha2)
          as (x2 & Hx2 & Hp2 & E2 & Hv2 & Hm2).
        repeat split; [congruence | congruence |].
        rewrite E1, E2. apply Forall2_insert; [assumption|].
        right. repeat split; congruence.
    + assert (H2 : effects hk2 !! j = None).
      { apply lookup_ge_None. apply lookup_ge_None in H1.
        now rewrite <- (Forall2_length _ _ _ Hes). }
      cbn [step]. now rewrite H1, H2.
Qed.

Lemma same_but_for_cancelled_run_events evs : forall hk1 hk2,
  same_but_for_cancelled hk1 hk2 ->
  same_but_for_cancelled (run_events hk1 evs) (run_events hk2 evs).
Proof.
  induction evs as [|ev evs IH]; intros hk1 hk2 Hs; [exact Hs|].
  cbn. now apply IH, same_but_for_cancelled_step.
Qed.

(** X26.  An answer that arrives for a cancelled run is as good as no
    answer: it changes nothing in what the hook returns then, and nothing
    in what it returns after any later renders, unmount and answers. *)
Theorem answer_to_a_cancelled_run_is_never_seen
        (hk : Hook) (before later : list Event) (i : nat) (o : FetchOutcome) :
  is_aborted (run_events hk before) i ->
  view (run_events hk (before ++ Settle i o :: later))
  = view (run_events hk (before ++ later)).
Proof.
  intros (e & He & Ha). unfold run_events. rewrite !fold_left_app.
  cbn [fold_left]. fold (run_events hk before) in *.
  set (hk0 := run_events hk before) in *.
  apply (same_but_for_cancelled_run_events later (step hk0 (Settle i o)) hk0).
  destruct (settle_aborted hk0 i e o He Ha) as (x & Hx & Hp & E & Hv & Hm).
  repeat split; [assumption | assumption |]. rewrite E.
  rewrite <- (list_insert_id (effects hk0) i e He) at 2.
  apply Forall2_insert; [apply Forall2_alike_refl|].
  right. now repeat split.
Qed.

(** X27.  After the unmount the hook never sets state again: whatever
    happens later, answers to any of its runs included, it returns what it
    returned when it was unmounted. *)
Theorem no_state_change_after_unmount (evs later : list Event) :
  view (run_events initial (evs ++ Unmount :: later))
  = view (run_events initial evs).
Proof.
  unfold run_events. rewrite fold_left_app. cbn [fold_left].
  fold (run_events initial evs). set (hk := run_events initial evs).
  assert (Hc : coherent hk) by apply reachable_coherent.
  assert (Hfrozen : forall hk', unmounted hk' = true ->
            (forall i e, effects hk' !! i = Some e -> aborted e = true) ->
            view (fold_left step later hk') = view hk').
  { induction later as [|ev later IH]; intros hk' Hm Hall; [reflexivity|].
    cbn [fold_left].
    assert (Hstep : view (step hk' ev) = view hk' /\
                    unmounted (step hk' ev) = true /\
                    forall i e, effects (step hk' ev) !! i = Some e ->
                                aborted e = true).
    { destruct ev as [pid| |j o]; cbn [step]; rewrite ?Hm; try (now repeat split).
      destruct (effects hk' !! j) as [e|] eqn:He; [|now repeat split].
      destruct (settle_aborted hk' j e o He (Hall j e He))
        as (x & Hx & _ & E & Hv & Hmx).
      cbn [step] in E, Hv, Hmx. rewrite He in E, Hv, Hmx.
      repeat split; [exact Hv | congruence |].
      intros i y. rewrite E. intros Hy.
      apply list_lookup_insert_Some in Hy as [(_ & <- & _)|(_ & Hy)];
        [exact Hx | exact (Hall i y Hy)]. }
    destruct Hstep as (Hv & Hm' & Hall').
    rewrite (IH (step hk' ev) Hm' Hall'). exact Hv. }
  cbn [step]. destruct (unmounted hk) eqn:Hm.
  - apply Hfrozen; [exact Hm|].
    intros i e He. destruct (aborted e) eqn:Ha; [reflexivity|].
    destruct Hc as (HA & _). destruct (HA i e He Ha) as [Hm' _]. congruence.
  - rewrite Hfrozen; [reflexivity | reflexivity |].
    intros i e. cbn [effects]. now apply cleanup_all_aborted.
Qed.

(** *** Where the promise of a run comes from *)






Lemma only_the_latest_run_is_live_witness :
  current (run_events initial [Render (VNum 1); Settle 0 found; Render (VNum 2)]) 1.
Proof.
  apply (only_the_latest_run_is_live
           [Render (VNum 1); Settle 0 found; Render (VNum 2)] 1
           {| productId := VNum 2; aborted := false;
              fetching := awaited (fetchProductById [VNum 2; VSignal false]);
              resumed := false |});
    reflexivity.
Defined.

Lemma answer_to_the_current_run_settles_the_state_witness :
  view (step (run_events initial second_product) (Settle 1 offline))
  = (product (run_events initial second_product), false,
     Some (message_or_default (MkError NTypeError "Network request failed"))).
Proof.
  apply (answer_to_the_current_run_settles_the_state second_product 1
           {| productId := VNum 2; aborted := false;
              fetching := awaited (fetchProductById [VNum 2; VSignal false]);
              resumed := false |}
           offline (Throw (MkError NTypeError "Network request failed")));
    reflexivity.
Defined.

Lemma answer_to_a_cancelled_run_is_never_seen_witness :
  view (run_events initial
          ([Render (VNum 1); Render (VNum 2)]
             ++ Settle 0 found :: [Settle 1 offline; Render (VNum 1)]))
  = view (run_events initial
            ([Render (VNum 1); Render (VNum 2)]
               ++ [Settle 1 offline; Render (VNum 1)])).
Proof.
  apply (answer_to_a_cancelled_run_is_never_seen initial
           [Render (VNum 1); Render (VNum 2)]
           [Settle 1 offline; Render (VNum 1)] 0 found).
  eexists. split; reflexivity.
Defined.

End UseProductDetailLaws.

(* ===================================================================== *)
(** ** src/screens/ProductDetailScreen.js: what is shown *)
(* ===================================================================== *)

Module ProductDetailScreenFacts.
Import JsString JsValue Api UseProductDetail UseProductDetailFacts.
Import UseProductDetailLaws ProductDetailScreen.




(** The render that receives a new [productId] comes before the effect:
    it still returns the details of the product fetched for the
    [productId] before, and the spinner follows once the effect has
    run.  Data without a price, as [essence_mascara] is here, makes the
    component throw. *)
Example render_with_a_new_productId :
  screen (view (run_events initial [Render (VNum 5); Settle 0 found_polish]))
    = Ok (ProductDetails red_nail_polish) /\
  screen (view (run_events initial
                  [Render (VNum 5); Settle 0 found_polish; Render (VNum 1)]))
    = Ok LoadingIndicator /\
  screen (view (run_events initial [Render (VNum 1); Settle 0 found]))
    = Throw (type_error "Cannot read properties of undefined (reading 'toFixed')").
Proof. repeat split. Qed.

End ProductDetailScreenFacts.
